(** * SpoofCoin: the genesis miner and the node miner, embedded in Rocq

    The development follows the C++ sources:
    - [genesis_miner.cpp]: the stand-alone miner ([uint256], [BlockHeader],
      [Hash], the search loop of [main]);
    - [kernel/genesis_customcoin.cpp]: [MineCustomCoinGenesisBlock];
    - [spoofcoin/miner.cpp]: [AdvancedMiner] ([StartMining], [MineBlock]);
    - [spoofcoin-miner.cpp]: [SetupMiner].

    Machine integers are integers of [Z] with the wrap-around written out,
    [std::string] is a list of characters, a byte is a [Z] below 256. *)

From Stdlib Require Import ZArith Ascii String List Bool Lia.
Import ListNotations.
Open Scope Z_scope.

(** ** Machine arithmetic *)

Definition wrap32 (x : Z) : Z := x mod 2 ^ 32.
Definition wrap64 (x : Z) : Z := x mod 2 ^ 64.

(** Conversion of an out-of-range value to [int] (two's complement). *)
Definition to_int (x : Z) : Z :=
  let r := x mod 2 ^ 32 in if r <? 2 ^ 31 then r else r - 2 ^ 32.

Definition is_u32 (x : Z) : Prop := 0 <= x < 2 ^ 32.
Definition is_byte (x : Z) : Prop := 0 <= x < 256.

(** [std::string] as a list of characters. *)
Definition cstring := list ascii.
Definition str (s : string) : cstring := list_ascii_of_string s.

(** [s.substr(pos, n)], for [pos] within the string. *)
Definition substr (s : cstring) (pos n : nat) : cstring := firstn n (skipn pos s).

(** The counted loops [for (i = a; ...; i += d)] and [for (i = a; ...; i -= d)]
    run over these index lists. *)
Fixpoint upfrom (a : Z) (d : Z) (n : nat) : list Z :=
  match n with
  | O => []
  | S k => a :: upfrom (a + d) d k
  end.

Definition downfrom (a : Z) (d : Z) (n : nat) : list Z := upfrom a (- d) n.

(** ** SHA-256 (FIPS 180-4)

    The stand-alone miner calls OpenSSL's [SHA256_Init], [SHA256_Update] and
    [SHA256_Final].  The theorems below take the digest function as a
    parameter; this executable definition instantiates it at concrete
    headers. *)
Module SHA256.

Definition add32 (a b : Z) : Z := (a + b) mod 2 ^ 32.
Definition rotr (n x : Z) : Z :=
  Z.lor (Z.shiftr x n) (Z.shiftl x (32 - n) mod 2 ^ 32).
Definition shr (n x : Z) : Z := Z.shiftr x n.
Definition lnot32 (x : Z) : Z := 2 ^ 32 - 1 - x.

Definition Ch (x y z : Z) : Z := Z.lxor (Z.land x y) (Z.land (lnot32 x) z).
Definition Maj (x y z : Z) : Z :=
  Z.lxor (Z.lxor (Z.land x y) (Z.land x z)) (Z.land y z).
Definition Sigma0 (x : Z) : Z := Z.lxor (Z.lxor (rotr 2 x) (rotr 13 x)) (rotr 22 x).
Definition Sigma1 (x : Z) : Z := Z.lxor (Z.lxor (rotr 6 x) (rotr 11 x)) (rotr 25 x).
Definition sigma0 (x : Z) : Z := Z.lxor (Z.lxor (rotr 7 x) (rotr 18 x)) (shr 3 x).
Definition sigma1 (x : Z) : Z := Z.lxor (Z.lxor (rotr 17 x) (rotr 19 x)) (shr 10 x).

(** The round constants are the first 32 bits of the fractional parts of
    the cube roots of the first 64 primes, the initial state those of the
    square roots of the first 8 primes. *)
Definition is_prime (p : Z) : bool :=
  forallb (fun d => negb (p mod d =? 0)) (upfrom 2 1 (Z.to_nat (Z.sqrt p) - 1)).

Definition primes : list Z := filter is_prime (upfrom 2 1 310).

Fixpoint cube_root_bits (n : nat) (acc v : Z) : Z :=
  match n with
  | O => acc
  | S k =>
      let c := acc + 2 ^ Z.of_nat k in
      if c * c * c <=? v then cube_root_bits k c v else cube_root_bits k acc v
  end.

Definition K : list Z :=
  Eval vm_compute in
    map (fun p => cube_root_bits 36 0 (p * 2 ^ 96) mod 2 ^ 32) primes.

Definition H0 : list Z :=
  Eval vm_compute in
    map (fun p => Z.sqrt (p * 2 ^ 64) mod 2 ^ 32) (firstn 8 primes).

(** Padding: a 1 bit, zeros up to 56 modulo 64, the bit length on 8 bytes. *)
Definition be_bytes (n : nat) (x : Z) : list Z :=
  map (fun i => Z.land (Z.shiftr x (8 * i)) 255) (downfrom (Z.of_nat n - 1) 1 n).

Definition pad (msg : list Z) : list Z :=
  let len := Z.of_nat (length msg) in
  let zeros := Z.to_nat ((55 - len) mod 64) in
  msg ++ [128] ++ repeat 0 zeros ++ be_bytes 8 (8 * len).

Fixpoint be_words (n : nat) (bs : list Z) : list Z :=
  match n, bs with
  | S k, b0 :: b1 :: b2 :: b3 :: r =>
      (b0 * 2 ^ 24 + b1 * 2 ^ 16 + b2 * 2 ^ 8 + b3) :: be_words k r
  | _, _ => []
  end.

(** The message schedule, kept most recent word first. *)
Fixpoint schedule (n : nat) (w : list Z) : list Z :=
  match n with
  | O => w
  | S k =>
      let w' :=
        add32 (add32 (sigma1 (nth 1 w 0)) (nth 6 w 0))
              (add32 (sigma0 (nth 14 w 0)) (nth 15 w 0)) in
      schedule k (w' :: w)
  end.

Definition round (st : list Z) (kw : Z * Z) : list Z :=
  match st with
  | [a; b; c; d; e; f; g; h] =>
      let t1 := add32 (add32 (add32 h (Sigma1 e)) (add32 (Ch e f g) (fst kw))) (snd kw) in
      let t2 := add32 (Sigma0 a) (Maj a b c) in
      [add32 t1 t2; a; b; c; add32 d t1; e; f; g]
  | _ => st
  end.

Definition compress (h : list Z) (block : list Z) : list Z :=
  let w := rev (schedule 48 (rev (be_words 16 block))) in
  let st := fold_left round (combine K w) h in
  map (fun p => add32 (fst p) (snd p)) (combine h st).

Fixpoint blocks (n : nat) (h : list Z) (bs : list Z) : list Z :=
  match n with
  | O => h
  | S k =>
      match bs with
      | [] => h
      | _ => blocks k (compress h (firstn 64 bs)) (skipn 64 bs)
      end
  end.

Definition digest (msg : list Z) : list Z :=
  let p := pad msg in
  flat_map (be_bytes 4) (blocks (length p) H0 p).

End SHA256.

(** ** [strtol(s, nullptr, 16)]

    Leading white space is skipped, then an optional sign and an optional
    [0x] prefix, then hexadecimal digits up to the first character that is
    not one.  No digit at all gives 0.  (The clamp to [LONG_MAX] is left out:
    the miner only passes strings of at most two characters.) *)
Definition hex_digit (c : ascii) : option Z :=
  let n := Z.of_nat (nat_of_ascii c) in
  if (48 <=? n) && (n <=? 57) then Some (n - 48)
  else if (97 <=? n) && (n <=? 102) then Some (n - 87)
  else if (65 <=? n) && (n <=? 70) then Some (n - 55)
  else None.

Definition is_space (c : ascii) : bool :=
  let n := Z.of_nat (nat_of_ascii c) in
  (n =? 32) || ((9 <=? n) && (n <=? 13)).

Fixpoint strtol_digits (s : cstring) (acc : Z) : Z :=
  match s with
  | c :: r =>
      match hex_digit c with
      | Some d => strtol_digits r (16 * acc + d)
      | None => acc
      end
  | [] => acc
  end.

Definition strtol_prefix (s : cstring) : Z :=
  match s with
  | "0"%char :: x :: r =>
      if (Ascii.eqb x "x" || Ascii.eqb x "X")%bool
      then strtol_digits r 0
      else strtol_digits s 0
  | _ => strtol_digits s 0
  end.

Fixpoint skip_space (s : cstring) : cstring :=
  match s with
  | c :: r => if is_space c then skip_space r else s
  | [] => []
  end.

Definition strtol16 (s : cstring) : Z :=
  match skip_space s with
  | "-"%char :: r => - strtol_prefix r
  | "+"%char :: r => strtol_prefix r
  | s' => strtol_prefix s'
  end.

(** The conversions [(uint8_t)] and [(char)] of the parsed value: one byte. *)
Definition to_byte (x : Z) : Z := x mod 256.

(** ** [class uint256] of genesis_miner.cpp

    [uint32_t data[8]], [data[0]] the least significant word. *)
Definition uint256 := list Z.

Definition zero256 : uint256 := repeat 0 8.

Definition wf256 (u : uint256) : Prop :=
  length u = 8%nat /\ Forall is_u32 u.

(** [data[i]] and [data[i] |= v]. *)
Definition word (u : uint256) (i : Z) : Z := nth (Z.to_nat i) u 0.

Fixpoint lor_at (u : uint256) (i : nat) (v : Z) : uint256 :=
  match u, i with
  | [], _ => []
  | w :: r, O => wrap32 (Z.lor w v) :: r
  | w :: r, S k => w :: lor_at r k v
  end.

(** One iteration of the loop of [SetHex], at index [i] of a string of length
    [len].  [hex.length() - i - 2] is computed in [size_t] and converted to
    [int]; [/] and [%] on [int] truncate towards zero.  For a string of odd
    length the last iteration has [byte_in_word = -1] and shifts by a negative
    count, which C++ leaves undefined: the model leaves [data] as it is
    there. *)
Definition SetHex_step (hex : cstring) (data : uint256) (i : Z) : uint256 :=
  let len := Z.of_nat (length hex) in
  let byte_pos := to_int (wrap64 (len - i - 2) / 2) in
  let word_pos := Z.quot byte_pos 4 in
  let byte_in_word := Z.rem byte_pos 4 in
  let byte_str := substr hex (Z.to_nat i) 2 in
  let byte_val := to_byte (strtol16 byte_str) in
  if byte_in_word <? 0 then data
  else lor_at data (Z.to_nat word_pos) (Z.shiftl byte_val (byte_in_word * 8)).

Definition SetHex (hex : cstring) : uint256 :=
  if (64 <? length hex)%nat then zero256
  else fold_left (SetHex_step hex) (upfrom 0 2 (Nat.div2 (S (length hex)))) zero256.

(** [std::hex << std::setfill('0') << std::setw(8) << data[i]]: a 32-bit word
    prints as exactly eight lower-case digits. *)
Definition hex_char (n : Z) : ascii :=
  ascii_of_nat (Z.to_nat (if n <? 10 then 48 + n else 87 + n)).

Definition nibble (x : Z) (k : Z) : Z := Z.land (Z.shiftr x (4 * k)) 15.

Definition hex_fixed (width : nat) (x : Z) : cstring :=
  map (fun k => hex_char (nibble x k)) (downfrom (Z.of_nat width - 1) 1 width).

Definition GetHex (u : uint256) : cstring :=
  flat_map (fun i => hex_fixed 8 (word u i)) (downfrom 7 1 8).

(** [operator<]: words compared from [data[7]] down to [data[0]]. *)
Fixpoint lt_from (i : nat) (a b : uint256) : bool :=
  match i with
  | O => false
  | S k =>
      if word a (Z.of_nat k) <? word b (Z.of_nat k) then true
      else if word b (Z.of_nat k) <? word a (Z.of_nat k) then false
      else lt_from k a b
  end.

Definition lt256 (a b : uint256) : bool := lt_from 8 a b.

(** [operator==]: [memcmp] of the two arrays. *)
Fixpoint eq256 (a b : uint256) : bool :=
  match a, b with
  | [], [] => true
  | x :: r, y :: s => (x =? y) && eq256 r s
  | _, _ => false
  end.

(** [operator<=]. *)
Definition le256 (a b : uint256) : bool := lt256 a b || eq256 a b.

(** The number a [uint256] stands for. *)
Fixpoint value256 (u : uint256) : Z :=
  match u with
  | [] => 0
  | w :: r => w + 2 ^ 32 * value256 r
  end.

(** ** [struct BlockHeader] *)
Record BlockHeader := mkHeader {
  nVersion : Z;
  hashPrevBlock : uint256;
  hashMerkleRoot : uint256;
  nTime : Z;
  nBits : Z;
  nNonce : Z
}.

Definition wfHeader (h : BlockHeader) : Prop :=
  is_u32 (nVersion h) /\ wf256 (hashPrevBlock h) /\ wf256 (hashMerkleRoot h) /\
  is_u32 (nTime h) /\ is_u32 (nBits h) /\ is_u32 (nNonce h).

(** [for (i = 0; i < 4; i++) ss << (char)((x >> (i * 8)) & 0xFF)]. *)
Definition put_u32 (x : Z) : list Z :=
  map (fun i => to_byte (Z.land (Z.shiftr x (i * 8)) 255)) (upfrom 0 1 4).

(** [for (i = 62; i >= 0; i -= 2) ss << (char)strtol(hex.substr(i, 2), 0, 16)]. *)
Definition put_hash (u : uint256) : list Z :=
  let hex := GetHex u in
  map (fun i => to_byte (strtol16 (substr hex (Z.to_nat i) 2))) (downfrom 62 2 32).

Definition Serialize (h : BlockHeader) : list Z :=
  put_u32 (nVersion h) ++ put_hash (hashPrevBlock h) ++
  put_hash (hashMerkleRoot h) ++ put_u32 (nTime h) ++
  put_u32 (nBits h) ++ put_u32 (nNonce h).

(** ** [Hash]: the digest function applied twice, printed as 64 hexadecimal
    digits in the order of the digest's bytes, and read back by [SetHex]. *)
Definition hex_of_bytes (bs : list Z) : cstring :=
  flat_map (hex_fixed 2) bs.

Definition Hash (sha256 : list Z -> list Z) (data : list Z) : uint256 :=
  SetHex (hex_of_bytes (sha256 (sha256 data))).

(** The header and the target of [main]. *)
Definition main_genesis : BlockHeader :=
  mkHeader 1
    (SetHex (str "0000000000000000000000000000000000000000000000000000000000000000"))
    (SetHex (str "4a5e1e4baab89f3a32518a88c31bc87f618f76673e2cc77ab2127b7afdeda33b"))
    1737933600 0x1d00ffff 0.

Definition main_target : uint256 :=
  SetHex (str "00000000ffff0000000000000000000000000000000000000000000000000000").

(** ** The search loop of [main] (genesis_miner.cpp)

    One iteration hashes the serialized header and counts it ([hashes] is a
    [uint64_t]); the progress line printed every 100000 hashes has no effect
    on the state.  On success the loop breaks; otherwise the nonce is
    incremented and, when it has wrapped to 0, so is the time.  [fuel] bounds
    the number of iterations the model runs. *)
Record MineResult := mkResult {
  found_header : BlockHeader;
  found_hash : uint256;
  total_hashes : Z
}.

Definition set_nonce_time (g : BlockHeader) (n t : Z) : BlockHeader :=
  mkHeader (nVersion g) (hashPrevBlock g) (hashMerkleRoot g) t (nBits g) n.

(** [genesis.nNonce++; if (genesis.nNonce == 0) { genesis.nTime++; genesis.nNonce = 0; }] *)
Definition next_header (g : BlockHeader) : BlockHeader :=
  let n := wrap32 (nNonce g + 1) in
  if n =? 0 then set_nonce_time g 0 (wrap32 (nTime g + 1))
  else set_nonce_time g n (nTime g).

Section StandaloneMiner.

Variable sha256 : list Z -> list Z.
Variable target : uint256.

Fixpoint mine_loop (fuel : nat) (genesis : BlockHeader) (hashes : Z) : option MineResult :=
  match fuel with
  | O => None
  | S fuel' =>
      let serialized := Serialize genesis in
      let hash := Hash sha256 serialized in
      let hashes := wrap64 (hashes + 1) in
      if le256 hash target then Some (mkResult genesis hash hashes)
      else mine_loop fuel' (next_header genesis) hashes
  end.

End StandaloneMiner.

(** [main]: the fixed header, the fixed target, the counter at 0. *)
Definition main (sha256 : list Z -> list Z) (fuel : nat) : option MineResult :=
  mine_loop sha256 main_target fuel main_genesis 0.

(** ** Compact targets *)

(** Modelled from the spec: the decoding of a compact target.  The node's
    [arith_uint256::SetCompact] is not among the sources, and the stand-alone
    miner writes its target out.  The top byte of [bits] is the exponent E,
    the low 23 bits the mantissa M (the sign bit masked off); the target is
    M shifted right by 8*(3-E) bits when E <= 3 and left by 8*(E-3) bits
    otherwise, kept to 256 bits. *)
Definition DecodeCompact (bits : Z) : Z :=
  let E := Z.shiftr bits 24 in
  let M := Z.land bits 0x007fffff in
  if E <=? 3 then Z.shiftr M (8 * (3 - E))
  else Z.shiftl M (8 * (E - 3)) mod 2 ^ 256.

(** The [uint256] holding a given number. *)
Fixpoint words_of (n : nat) (x : Z) : list Z :=
  match n with
  | O => []
  | S k => x mod 2 ^ 32 :: words_of k (x / 2 ^ 32)
  end.

Definition of_Z256 (x : Z) : uint256 := words_of 8 x.

(** ** [CBlock], as far as the node miners touch it

    [GetHash], [UintToArith256] and [arith_uint256::SetCompact] belong to
    the node: the miners below take [GetHash] (the digest of a block, as a
    number below 2^256) and [SetCompact] as parameters. *)
Record CBlock := mkBlock {
  blk_nVersion : Z;
  blk_hashPrevBlock : Z;
  blk_hashMerkleRoot : Z;
  blk_nTime : Z;
  blk_nBits : Z;
  blk_nNonce : Z
}.

Definition with_nonce (b : CBlock) (n : Z) : CBlock :=
  mkBlock (blk_nVersion b) (blk_hashPrevBlock b) (blk_hashMerkleRoot b)
          (blk_nTime b) (blk_nBits b) n.

(** ** [MineCustomCoinGenesisBlock] (kernel/genesis_customcoin.cpp) *)
Section KernelMiner.

Variable SetCompact : Z -> Z.
Variable GetHash : CBlock -> Z.

(** [hashTarget = SetCompact(nBits); if (hashTarget > powLimit) hashTarget = powLimit;] *)
Definition kernel_target (bits powLimit : Z) : Z :=
  let hashTarget := SetCompact bits in
  if powLimit <? hashTarget then powLimit else hashTarget.

Fixpoint kernel_loop (fuel : nat) (genesis : CBlock) (hashTarget : Z) (nNonce : Z)
  : option (Z * CBlock) :=
  match fuel with
  | O => None
  | S fuel' =>
      let genesis := with_nonce genesis nNonce in
      let hash := GetHash genesis in
      if hash <=? hashTarget then Some (nNonce, genesis)
      else kernel_loop fuel' genesis hashTarget (wrap32 (nNonce + 1))
  end.

Definition MineCustomCoinGenesisBlock (fuel : nat) (genesis : CBlock) (powLimit : Z)
  : option (Z * CBlock) :=
  kernel_loop fuel genesis (kernel_target (blk_nBits genesis) powLimit) 0.

End KernelMiner.

(** ** [AdvancedMiner] (spoofcoin/miner.cpp)

    The members of the class, with the atomics as plain fields: the model
    runs the calls of one thread at a time.  [mining_threads_] lists the
    [thread_id] each started thread was given. *)
Section AdvancedMiner.

Variable CScript : Type.
Variable double : Type.

Record MiningConfig := mkConfig {
  threads : Z;
  use_cpu_mining : bool;
  adaptive_difficulty : bool;
  smart_fee_selection : bool;
  mining_address : CScript;
  max_block_weight : Z;
  min_tx_fee : Z
}.

Record MiningStats := mkStats {
  hashes_computed : Z;
  blocks_found : Z;
  hash_rate : double;
  start_time : Z;
  is_mining : bool
}.

Record Miner := mkMiner {
  config_ : MiningConfig;
  stats_ : MiningStats;
  mining_threads_ : list Z;
  stop_mining_ : bool;
  current_nonce_ : Z
}.

(** [StartMining(config)], with [now] the value [GetTime()] returns. *)
Definition StartMining (config : MiningConfig) (now : Z) (m : Miner) : bool * Miner :=
  if is_mining (stats_ m) then (false, m)
  else
    let stats := mkStats (hashes_computed (stats_ m)) (blocks_found (stats_ m))
                         (hash_rate (stats_ m)) now true in
    let started := upfrom 0 1 (Z.to_nat (threads config)) in
    (true, mkMiner config stats (mining_threads_ m ++ started) false (current_nonce_ m)).

Variable SetCompact : Z -> Z.
Variable GetHash : CBlock -> Z.

Definition add_hash (m : Miner) : Miner :=
  let s := stats_ m in
  mkMiner (config_ m)
          (mkStats (wrap64 (hashes_computed s + 1)) (blocks_found s) (hash_rate s)
                   (start_time s) (is_mining s))
          (mining_threads_ m) (stop_mining_ m) (current_nonce_ m).

Definition fetch_add (m : Miner) (d : Z) : Z * Miner :=
  (current_nonce_ m,
   mkMiner (config_ m) (stats_ m) (mining_threads_ m) (stop_mining_ m)
           (wrap32 (current_nonce_ m + d))).

(** The loop of [MineBlock] from [nonce] on.  The bound
    [current_nonce_.load() + 1000] is read again at every test, in 32-bit
    unsigned arithmetic.  [tested] collects, in order, the nonces hashed. *)
Fixpoint MineBlock_loop (fuel : nat) (block : CBlock) (target : Z) (nonce : Z)
    (tested : list Z) (m : Miner) : option (option Z * list Z * Miner) :=
  match fuel with
  | O => None
  | S fuel' =>
      if (nonce <? wrap32 (current_nonce_ m + 1000)) && negb (stop_mining_ m) then
        let block := with_nonce block nonce in
        if GetHash block <=? target then Some (Some nonce, tested ++ [nonce], m)
        else MineBlock_loop fuel' block target (wrap32 (nonce + 1))
                            (tested ++ [nonce]) (add_hash m)
      else Some (None, tested, m)
  end.

(** [MineBlock(block, nonce_out)]: [Some n] for [true] with [nonce_out = n],
    [None] for [false]; with the nonces it hashed. *)
Definition MineBlock (fuel : nat) (block : CBlock) (m : Miner)
  : option (option Z * list Z * Miner) :=
  let target := SetCompact (blk_nBits block) in
  let (nonce, m) := fetch_add m 1000 in
  MineBlock_loop fuel block target nonce [] m.

End AdvancedMiner.

Arguments mkConfig {CScript}.
Arguments threads {CScript}.
Arguments mining_address {CScript}.
Arguments mkStats {double}.
Arguments is_mining {double}.
Arguments mkMiner {CScript double}.
Arguments config_ {CScript double}.
Arguments stats_ {CScript double}.
Arguments mining_threads_ {CScript double}.
Arguments stop_mining_ {CScript double}.
Arguments current_nonce_ {CScript double}.
Arguments StartMining {CScript double}.
Arguments MineBlock {CScript double}.
Arguments MineBlock_loop {CScript double}.

(** ** [SetupMiner] (spoofcoin-miner.cpp)

    [CScript] and its [operator<<] belong to the node: a script is modelled
    as the sequence of what was pushed on it, opcodes and byte vectors. *)
Inductive opcode := OP_DUP | OP_HASH160 | OP_EQUALVERIFY | OP_CHECKSIG.

Inductive ScriptItem :=
  | PushOp (op : opcode)
  | PushData (bytes : list Z).

Definition Script := list ScriptItem.

(** The command line as [gArgs] holds it: [None] when the flag is not set;
    [-threads] already parsed to the [int64_t] that [GetIntArg] returns. *)
Record Args := mkArgs {
  arg_threads : option Z;
  arg_address : option cstring
}.

(** [MiningUtils::OptimizeMiningConfig], with [hw] the value of
    [std::thread::hardware_concurrency()]; the other fields keep the defaults
    of [MiningConfig]. *)
Definition OptimizeMiningConfig (hw : Z) : MiningConfig Script :=
  let threads := to_int hw in
  mkConfig (if threads =? 0 then 1 else threads) true true true [] 4000000 1000.

Definition with_threads (c : MiningConfig Script) (n : Z) : MiningConfig Script :=
  mkConfig n (use_cpu_mining _ c) (adaptive_difficulty _ c) (smart_fee_selection _ c)
           (mining_address c) (max_block_weight _ c) (min_tx_fee _ c).

Definition with_address (c : MiningConfig Script) (s : Script) : MiningConfig Script :=
  mkConfig (threads c) (use_cpu_mining _ c) (adaptive_difficulty _ c)
           (smart_fee_selection _ c) s (max_block_weight _ c) (min_tx_fee _ c).

(** [std::vector<unsigned char> addr_bytes(address.begin(), address.end());
     if (addr_bytes.size() > 20) addr_bytes.resize(20);
     while (addr_bytes.size() < 20) addr_bytes.push_back(0);] *)
Definition string_bytes (s : cstring) : list Z :=
  map (fun c => Z.of_nat (nat_of_ascii c)) s.

Definition addr_bytes (address : cstring) : list Z :=
  let bytes := string_bytes address in
  let bytes := if (20 <? length bytes)%nat then firstn 20 bytes else bytes in
  bytes ++ repeat 0 (20 - length bytes).

Definition reward_script (address : cstring) : Script :=
  [PushOp OP_DUP; PushOp OP_HASH160; PushData (addr_bytes address);
   PushOp OP_EQUALVERIFY; PushOp OP_CHECKSIG].

(** The result is the returned [bool] and [config] as the call leaves it. *)
Definition SetupMiner (hw : Z) (args : Args) : bool * MiningConfig Script :=
  let config := OptimizeMiningConfig hw in
  let after_threads :=
    match arg_threads args with
    | Some v =>
        let config := with_threads config (to_int v) in
        if threads config <=? 0 then (false, config) else (true, config)
    | None => (true, config)
    end in
  match after_threads with
  | (false, config) => (false, config)
  | (true, config) =>
      match arg_address args with
      | Some address =>
          match address with
          | [] => (false, config)
          | _ => (true, with_address config (reward_script address))
          end
      | None => (false, config)
      end
  end.

(** ** Reference encodings the theorems are stated against *)

(** Little-endian bytes of a number, least significant first. *)
Fixpoint le_bytes (n : nat) (x : Z) : list Z :=
  match n with
  | O => []
  | S k => x mod 256 :: le_bytes k (x / 256)
  end.

(** The number a byte string stands for, first byte most significant
    ([be_value]) or least significant ([le_value]). *)
Definition be_value (bs : list Z) : Z := fold_left (fun acc b => 256 * acc + b) bs 0.
Definition le_value (bs : list Z) : Z := fold_right (fun b acc => b + 256 * acc) 0 bs.

(** The bytes a string of hexadecimal digit pairs displays, in reading order. *)
Definition bytes_of_hex (hex : cstring) : list Z :=
  map (fun i => to_byte (strtol16 (substr hex (Z.to_nat i) 2)))
      (upfrom 0 2 (Nat.div2 (length hex))).

Definition byte_at (w : Z) (j : Z) : Z := Z.land (Z.shiftr w (8 * j)) 255.

Definition word_bytes (w : Z) : list Z :=
  [byte_at w 0; byte_at w 1; byte_at w 2; byte_at w 3].

(** ** The states of the stand-alone search

    The header after [k] failed attempts from nonce 0, and the test made on
    it. *)
Definition header_at (g : BlockHeader) (k : Z) : BlockHeader :=
  set_nonce_time g (k mod 2 ^ 32) ((nTime g + k / 2 ^ 32) mod 2 ^ 32).

Definition attempt (sha256 : list Z -> list Z) (target : uint256)
    (g : BlockHeader) (k : Z) : bool :=
  le256 (Hash sha256 (Serialize (header_at g k))) target.

(** ** Concrete runs

    A target every 256-bit number with a zero top nibble meets, and a digest
    function for a node block that depends on the nonce alone. *)
Definition easy_target : uint256 :=
  SetHex (str "0fffffffffffffffffffffffffffffffffffffffffffffffffffffffffffffff").

Definition sample_block : CBlock := mkBlock 1 0 0 1737933600 0x207fffff 0.

Definition sample_GetHash (b : CBlock) : Z := (3 - blk_nNonce b) * 2 ^ 254.

(** The header of Bitcoin's genesis block, whose merkle root [main] uses:
    time 1231006505, nonce 2083236893.  Its digest is the best-known proof
    of work for the target 0x1d00ffff. *)
Definition bitcoin_genesis : BlockHeader :=
  set_nonce_time main_genesis 2083236893 1231006505.

Definition bitcoin_genesis_digest : list Z :=
  SHA256.digest (SHA256.digest (Serialize bitcoin_genesis)).

(** A miner as its constructor leaves it, at time [now], and a digest
    function no nonce satisfies. *)
Definition default_config : MiningConfig Script :=
  mkConfig 1 true true true [] 4000000 1000.

Definition new_miner (now : Z) : Miner Script Z :=
  mkMiner default_config (mkStats 0 0 0 now false) [] false 0.

Definition worst_GetHash (b : CBlock) : Z := 2 ^ 256 - 1.

(** The block template of [CreateBlockTemplate] at time [now]:
    [nBits = 0x207fffff], as far as the header goes. *)
Definition block_template (now : Z) : CBlock := mkBlock 1 0 0 now 0x207fffff 0.

(** The proof-of-work limit of Bitcoin's main chain. *)
Definition mainnet_powLimit : Z := 0xffff * 2 ^ 208.

(** ** More of [AdvancedMiner] and [CPUMiner] (spoofcoin/miner.cpp) *)

(** [StopMining].  The threads that are joined go on hashing until they see
    the flag: [hashes], [blocks], [rate] and [nonce] are the values they have
    left in [hashes_computed], [blocks_found], [hash_rate] and
    [current_nonce_] when the last one has exited; they write no other
    member. *)
Definition StopMining {CScript double : Type} (hashes blocks : Z) (rate : double)
    (nonce : Z) (m : Miner CScript double) : Miner CScript double :=
  if negb (is_mining (stats_ m)) then m
  else mkMiner (config_ m)
               (mkStats hashes blocks rate (start_time _ (stats_ m)) false)
               [] true nonce.

(** [CPUMiner::MineWithSIMD(block, start_nonce, end_nonce, found_nonce)]:
    the result ([Some n] for [true] with [found_nonce = n]) and the block as
    the call leaves it. *)
Section CPUMiner.

Variable SetCompact : Z -> Z.
Variable GetHash : CBlock -> Z.

Fixpoint MineWithSIMD_loop (fuel : nat) (block : CBlock) (target : Z)
    (nonce end_nonce : Z) : option (option Z * CBlock) :=
  match fuel with
  | O => None
  | S fuel' =>
      if nonce <? end_nonce then
        let block := with_nonce block nonce in
        if GetHash block <=? target then Some (Some nonce, block)
        else MineWithSIMD_loop fuel' block target (wrap32 (nonce + 1)) end_nonce
      else Some (None, block)
  end.

Definition MineWithSIMD (fuel : nat) (block : CBlock) (start_nonce end_nonce : Z)
  : option (option Z * CBlock) :=
  let target := SetCompact (blk_nBits block) in
  MineWithSIMD_loop fuel block target start_nonce end_nonce.

End CPUMiner.

(** One turn of the loop of [MiningLoop], when no exception is thrown.
    [CreateBlockTemplate] never returns a null pointer; of the block it
    builds the header has version 1, null previous hash and merkle root (the
    root is never computed), the time [GetTime()] as a 32-bit word, bits
    [0x207fffff] and nonce 0.  [SubmitBlock] only logs and returns [true].
    [UpdateStats] divides in [double]: [rate hashes elapsed] stands for
    [static_cast<double>(hashes) / elapsed].  [now] is the value of
    [GetTime()] in [CreateBlockTemplate], [later] in [UpdateStats].  The
    result is the block submitted, if any, and the miner after the turn. *)
Section MiningLoop.

Context {CScript double : Type}.
Variable SetCompact : Z -> Z.
Variable GetHash : CBlock -> Z.
Variable rate : Z -> Z -> double.

Definition CreateBlockTemplate (now : Z) : CBlock :=
  mkBlock 1 0 0 (wrap32 now) 0x207fffff 0.

Definition count_block (m : Miner CScript double) : Miner CScript double :=
  let s := stats_ m in
  mkMiner (config_ m)
          (mkStats (hashes_computed _ s) (wrap64 (blocks_found _ s + 1)) (hash_rate _ s)
                   (start_time _ s) (is_mining s))
          (mining_threads_ m) (stop_mining_ m) (current_nonce_ m).

Definition UpdateStats (now : Z) (m : Miner CScript double) : Miner CScript double :=
  let s := stats_ m in
  let elapsed := now - start_time _ s in
  if 0 <? elapsed then
    mkMiner (config_ m)
            (mkStats (hashes_computed _ s) (blocks_found _ s)
                     (rate (hashes_computed _ s) elapsed)
                     (start_time _ s) (is_mining s))
            (mining_threads_ m) (stop_mining_ m) (current_nonce_ m)
  else m.

Definition MiningLoop_turn (fuel : nat) (now later : Z) (m : Miner CScript double)
  : option (option CBlock * Miner CScript double) :=
  let block_template := CreateBlockTemplate now in
  match MineBlock SetCompact GetHash fuel block_template m with
  | None => None
  | Some (Some nonce, _, m) =>
      let block_template := with_nonce block_template nonce in
      Some (Some block_template, UpdateStats later (count_block m))
  | Some (None, _, m) => Some (None, UpdateStats later m)
  end.

End MiningLoop.

(** [CPUMiner::GetOptimalThreadCount], with [hw] the value of
    [std::thread::hardware_concurrency()]. *)
Definition GetOptimalThreadCount (hw : Z) : Z :=
  let cores := to_int hw in
  if 0 <? cores then cores else 1.

(** ** The rest of spoofcoin-miner.cpp *)

(** The flags [main] reads besides those of [SetupMiner]: whether
    [ParseParameters] succeeded, whether [-?] or [-help] is set, the value of
    [-chain] when set, and [-benchmark]. *)
Record CmdLine := mkCmdLine {
  cl_parse_ok : bool;
  cl_help : bool;
  cl_chain : option cstring;
  cl_benchmark : bool;
  cl_args : Args
}.

Definition cstring_eqb (a b : cstring) : bool :=
  if list_eq_dec ascii_dec a b then true else false.

(** [RunBenchmark], up to the start of the threads: the configuration of
    [OptimizeMiningConfig] with a script of 20 zero bytes, started on a new
    miner; the function returns [false] only when [StartMining] does
    (exceptions apart). *)
Definition benchmark_config (hw : Z) : MiningConfig Script :=
  with_address (OptimizeMiningConfig hw)
    [PushOp OP_DUP; PushOp OP_HASH160; PushData (repeat 0 20);
     PushOp OP_EQUALVERIFY; PushOp OP_CHECKSIG].

Definition RunBenchmark (hw created now : Z) : bool * Miner Script Z :=
  StartMining (benchmark_config hw) now (new_miner created).

(** What [main] has decided when it reaches its waiting loop or returns
    before: an exit code, or the miner it has started.  With the miner
    started, [main] returns 0 once a signal has stopped it.  [created] and
    [now] are the values of [GetTime()] in the constructor of the miner and
    in [StartMining].  Exceptions (which give exit code 1) are outside the
    model. *)
Inductive Startup :=
  | Exit (code : Z)
  | Mining (m : Miner Script Z).

Definition miner_main (hw created now : Z) (cl : CmdLine) : Startup :=
  if negb (cl_parse_ok cl) then Exit 1
  else if cl_help cl then Exit 0
  else
    let chain := match cl_chain cl with Some c => c | None => str "spoofcoin" end in
    if negb (cstring_eqb chain (str "spoofcoin")) then Exit 1
    else if cl_benchmark cl then
      (if fst (RunBenchmark hw created now) then Exit 0 else Exit 1)
    else
      match SetupMiner hw (cl_args cl) with
      | (false, _) => Exit 1
      | (true, config) =>
          match StartMining config now (new_miner created) with
          | (false, _) => Exit 1
          | (true, m) => Mining m
          end
      end.

(** ** Reference notions for the further theorems *)

(** The 32-bit word with the given bytes, most significant first. *)
Definition pack (a b c d : Z) : Z := a * 2 ^ 24 + b * 2 ^ 16 + c * 2 ^ 8 + d.

(** The bytes of a [uint256], most significant first. *)
Definition be_bytes256 (u : uint256) : list Z := rev (flat_map word_bytes u).

(** [header] with its nonce replaced. *)
Definition set_nonce (g : BlockHeader) (n : Z) : BlockHeader :=
  set_nonce_time g n (nTime g).

(** While [is_mining] is set the stop flag is down, and a miner that is not
    mining holds no thread. *)
Definition miner_consistent {CScript double : Type} (m : Miner CScript double) : Prop :=
  (is_mining (stats_ m) = true -> stop_mining_ m = false) /\
  (is_mining (stats_ m) = false -> mining_threads_ m = []).

(** A digest function whose every digest is 32 bytes of 255. *)
Definition worst_sha256 (data : list Z) : list Z := repeat 255 32.

(** * Theorems *)

(** ** SHA-256 test vectors (FIPS 180-4, the messages "abc" and "") *)

Example sha256_abc :
  hex_of_bytes (SHA256.digest (string_bytes (str "abc"))) =
  str "ba7816bf8f01cfea414140de5dae2223b00361a396177a9cb410ff61f20015ad".
Proof. vm_compute. reflexivity. Qed.

Example sha256_empty :
  hex_of_bytes (SHA256.digest []) =
  str "e3b0c44298fc1c149afbf4c8996fb92427ae41e4649b934ca495991b7852b855".
Proof. vm_compute. reflexivity. Qed.

(** A message of 56 bytes, which pads to two blocks. *)
Example sha256_two_blocks :
  hex_of_bytes (SHA256.digest (string_bytes
    (str "abcdbcdecdefdefgefghfghighijhijkijkljklmklmnlmnomnopnopq"))) =
  str "248d6a61d20638b8e5c026930c3e6039a33ce45964ff2167f6ecedd419db06c1".
Proof. vm_compute. reflexivity. Qed.

(** ** Arithmetic of nibbles and bytes *)

Lemma small_cases (P : Z -> Prop) (n : nat) :
  (forall k, (k < n)%nat -> P (Z.of_nat k)) ->
  forall a, 0 <= a < Z.of_nat n -> P a.
Proof.
  intros H a Ha. rewrite <- (Z2Nat.id a) by lia. apply H. lia.
Qed.

Lemma nibble_range x k : 0 <= nibble x k < 16.
Proof.
  unfold nibble. change 15 with (Z.ones 4). rewrite Z.land_ones by lia.
  apply Z.mod_pos_bound. reflexivity.
Qed.

Lemma byte_at_range w j : 0 <= byte_at w j < 256.
Proof.
  unfold byte_at. change 255 with (Z.ones 8). rewrite Z.land_ones by lia.
  apply Z.mod_pos_bound. reflexivity.
Qed.

Lemma to_byte_small x : 0 <= x < 256 -> to_byte x = x.
Proof. intros. unfold to_byte. apply Z.mod_small. lia. Qed.

(** Two hexadecimal digits parse to the byte they display. *)
Lemma strtol16_pair a b :
  0 <= a < 16 -> 0 <= b < 16 ->
  strtol16 [hex_char a; hex_char b] = 16 * a + b.
Proof.
  revert a b.
  assert (H : forall ka kb, (ka < 16)%nat -> (kb < 16)%nat ->
            strtol16 [hex_char (Z.of_nat ka); hex_char (Z.of_nat kb)]
            = 16 * Z.of_nat ka + Z.of_nat kb).
  { intros ka kb Hka Hkb.
    do 16 (destruct ka as [|ka];
           [ do 16 (destruct kb as [|kb]; [ reflexivity | ]); lia | ]); lia. }
  intros a b Ha Hb.
  rewrite <- (Z2Nat.id a), <- (Z2Nat.id b) by lia. apply H; lia.
Qed.

Lemma byte_of_nibbles x j :
  0 <= j ->
  16 * nibble x (2 * j + 1) + nibble x (2 * j) = byte_at x j.
Proof.
  intros Hj. unfold nibble, byte_at.
  change 15 with (Z.ones 4). change 255 with (Z.ones 8).
  rewrite !Z.land_ones by lia.
  rewrite !Z.shiftr_div_pow2 by lia.
  replace (4 * (2 * j + 1)) with (8 * j + 4) by lia.
  replace (4 * (2 * j)) with (8 * j) by lia.
  rewrite Z.pow_add_r by lia.
  rewrite <- Z.div_div by (try apply Z.pow_pos_nonneg; lia).
  set (y := x / 2 ^ (8 * j)).
  change (2 ^ 8) with (2 ^ 4 * 2 ^ 4).
  rewrite Z.rem_mul_r by lia. lia.
Qed.

Lemma hex_pair_byte w j :
  0 <= j ->
  to_byte (strtol16 [hex_char (nibble w (2 * j + 1)); hex_char (nibble w (2 * j))])
  = byte_at w j.
Proof.
  intros Hj. rewrite strtol16_pair by apply nibble_range.
  rewrite byte_of_nibbles by lia. apply to_byte_small, byte_at_range.
Qed.

Lemma hex_pair_word w :
  [ to_byte (strtol16 [hex_char (nibble w 1); hex_char (nibble w 0)]);
    to_byte (strtol16 [hex_char (nibble w 3); hex_char (nibble w 2)]);
    to_byte (strtol16 [hex_char (nibble w 5); hex_char (nibble w 4)]);
    to_byte (strtol16 [hex_char (nibble w 7); hex_char (nibble w 6)]) ]
  = word_bytes w.
Proof.
  unfold word_bytes.
  rewrite <- (hex_pair_byte w 0), <- (hex_pair_byte w 1),
          <- (hex_pair_byte w 2), <- (hex_pair_byte w 3) by lia.
  reflexivity.
Qed.

(** ** Little-endian bytes *)

Lemma le_bytes_length n x : length (le_bytes n x) = n.
Proof. revert x. induction n; intros; simpl; auto. Qed.

Lemma le_bytes_app n m a b :
  0 <= a < 256 ^ Z.of_nat n ->
  le_bytes (n + m) (a + 256 ^ Z.of_nat n * b) = le_bytes n a ++ le_bytes m b.
Proof.
  revert a. induction n as [|n IH]; intros a Ha.
  - change (256 ^ Z.of_nat 0) with 1 in *. cbn [Nat.add le_bytes app].
    f_equal. lia.
  - rewrite Nat2Z.inj_succ, Z.pow_succ_r in * by lia.
    cbn [Nat.add le_bytes app].
    assert (Hq : (a + 256 * 256 ^ Z.of_nat n * b) / 256 = a / 256 + 256 ^ Z.of_nat n * b).
    { replace (a + 256 * 256 ^ Z.of_nat n * b) with (a + (256 ^ Z.of_nat n * b) * 256) by lia.
      apply Z.div_add. lia. }
    assert (Hr : (a + 256 * 256 ^ Z.of_nat n * b) mod 256 = a mod 256).
    { replace (a + 256 * 256 ^ Z.of_nat n * b) with (a + (256 ^ Z.of_nat n * b) * 256) by lia.
      apply Z.mod_add. lia. }
    rewrite Hq, Hr. f_equal. apply IH.
    split.
    + apply Z.div_pos; lia.
    + apply Z.div_lt_upper_bound; lia.
Qed.

Lemma word_bytes_le w : word_bytes w = le_bytes 4 w.
Proof.
  unfold word_bytes, byte_at, le_bytes.
  change 255 with (Z.ones 8). rewrite !Z.land_ones by lia.
  rewrite !Z.shiftr_div_pow2 by lia.
  rewrite !Z.div_div by lia.
  change (2 ^ (8 * 0)) with 1. rewrite Z.div_1_r.
  reflexivity.
Qed.

Lemma put_u32_le x : put_u32 x = le_bytes 4 x.
Proof.
  rewrite <- word_bytes_le.
  change (put_u32 x) with
    [to_byte (byte_at x 0); to_byte (byte_at x 1);
     to_byte (byte_at x 2); to_byte (byte_at x 3)].
  rewrite !to_byte_small by apply byte_at_range. reflexivity.
Qed.

Lemma value256_bytes u n :
  length u = n -> Forall is_u32 u ->
  flat_map word_bytes u = le_bytes (4 * n) (value256 u) /\
  0 <= value256 u < 256 ^ Z.of_nat (4 * n).
Proof.
  revert n. induction u as [|w r IH]; intros n Hn Hu.
  - simpl in Hn. subst n. simpl. split; [reflexivity | lia].
  - destruct n as [|n]; [discriminate|]. simpl in Hn.
    inversion Hu as [|? ? Hw Hr]; subst.
    destruct (IH n) as [IH1 IH2]; [lia | assumption |].
    cbn [flat_map value256].
    replace (4 * S n)%nat with (4 + 4 * n)%nat by lia.
    change (2 ^ 32) with (256 ^ Z.of_nat 4).
    rewrite le_bytes_app by (unfold is_u32 in Hw; simpl; lia).
    rewrite word_bytes_le, IH1. split; [reflexivity|].
    rewrite Nat2Z.inj_add, Z.pow_add_r by lia.
    unfold is_u32 in Hw. change (2 ^ 32) with (256 ^ Z.of_nat 4) in Hw.
    nia.
Qed.

(** ** The layout of [Serialize] *)

(** The two loops over the hexadecimal display, for any digit printer [f] and
    any pair parser [g]: only the indices are computed. *)
Lemma put_hash_shape (A B : Type) (f : Z -> Z -> A) (g : list A -> B) (d : Z)
    w0 w1 w2 w3 w4 w5 w6 w7 :
  map (fun i => g (firstn 2 (skipn (Z.to_nat i)
         (flat_map (fun i => map (fun k => f (nth (Z.to_nat i) [w0; w1; w2; w3; w4; w5; w6; w7] d) k)
                                 (downfrom 7 1 8)) (downfrom 7 1 8)))))
      (downfrom 62 2 32) =
  flat_map (fun w => [g [f w 1; f w 0]; g [f w 3; f w 2]; g [f w 5; f w 4]; g [f w 7; f w 6]])
           [w0; w1; w2; w3; w4; w5; w6; w7].
Proof. reflexivity. Qed.

Lemma bytes_of_hex_shape (A B : Type) (f : Z -> Z -> A) (g : list A -> B) (d : Z)
    w0 w1 w2 w3 w4 w5 w6 w7 :
  let hex := flat_map (fun i => map (fun k => f (nth (Z.to_nat i) [w0; w1; w2; w3; w4; w5; w6; w7] d) k)
                                    (downfrom 7 1 8)) (downfrom 7 1 8) in
  map (fun i => g (firstn 2 (skipn (Z.to_nat i) hex))) (upfrom 0 2 (Nat.div2 (length hex))) =
  rev (flat_map (fun w => [g [f w 1; f w 0]; g [f w 3; f w 2]; g [f w 5; f w 4]; g [f w 7; f w 6]])
                [w0; w1; w2; w3; w4; w5; w6; w7]).
Proof. reflexivity. Qed.

Lemma flat_map_hex_pairs (u : list Z) :
  flat_map (fun w =>
    [ to_byte (strtol16 [hex_char (nibble w 1); hex_char (nibble w 0)]);
      to_byte (strtol16 [hex_char (nibble w 3); hex_char (nibble w 2)]);
      to_byte (strtol16 [hex_char (nibble w 5); hex_char (nibble w 4)]);
      to_byte (strtol16 [hex_char (nibble w 7); hex_char (nibble w 6)]) ]) u
  = flat_map word_bytes u.
Proof.
  induction u as [|w r IH]; [reflexivity|].
  cbn [flat_map]. rewrite IH, hex_pair_word. reflexivity.
Qed.

Ltac eight_words u H :=
  do 8 (let w := fresh "w" in destruct u as [|w u]; [discriminate H|]);
  destruct u; [clear H | discriminate H].

Lemma put_hash_words u :
  length u = 8%nat -> put_hash u = flat_map word_bytes u.
Proof.
  intros H. eight_words u H.
  rewrite <- flat_map_hex_pairs.
  exact (put_hash_shape _ _ (fun w k => hex_char (nibble w k))
           (fun s => to_byte (strtol16 s)) 0 _ _ _ _ _ _ _ _).
Qed.

Lemma put_hash_rev_hex u :
  length u = 8%nat -> put_hash u = rev (bytes_of_hex (GetHex u)).
Proof.
  intros H. rewrite put_hash_words by assumption. eight_words u H.
  rewrite <- flat_map_hex_pairs. symmetry.
  etransitivity; [|apply rev_involutive].
  apply (f_equal (@rev Z)).
  exact (bytes_of_hex_shape _ _ (fun w k => hex_char (nibble w k))
           (fun s => to_byte (strtol16 s)) 0 _ _ _ _ _ _ _ _).
Qed.

Lemma put_hash_le u :
  wf256 u -> put_hash u = le_bytes 32 (value256 u).
Proof.
  intros [Hlen Hu]. rewrite put_hash_words by assumption.
  apply (value256_bytes u 8 Hlen Hu).
Qed.

Lemma GetHex_length u : length (GetHex u) = 64%nat.
Proof.
  unfold GetHex, hex_fixed. cbn [downfrom upfrom flat_map map].
  rewrite !length_app. reflexivity.
Qed.

(** C3. For every header whose fields are 32-bit words and 8-word hashes,
    [Serialize] gives exactly 80 bytes: version, previous block hash, merkle
    root, time, bits and nonce in this order; the four integers and the two
    256-bit hashes are little-endian, and each hash field is the byte-wise
    reverse of the bytes its hexadecimal display ([GetHex]) shows. *)
Theorem Serialize_layout (h : BlockHeader) :
  wfHeader h ->
  length (Serialize h) = 80%nat /\
  Serialize h =
    le_bytes 4 (nVersion h) ++ le_bytes 32 (value256 (hashPrevBlock h)) ++
    le_bytes 32 (value256 (hashMerkleRoot h)) ++ le_bytes 4 (nTime h) ++
    le_bytes 4 (nBits h) ++ le_bytes 4 (nNonce h) /\
  Serialize h =
    le_bytes 4 (nVersion h) ++ rev (bytes_of_hex (GetHex (hashPrevBlock h))) ++
    rev (bytes_of_hex (GetHex (hashMerkleRoot h))) ++ le_bytes 4 (nTime h) ++
    le_bytes 4 (nBits h) ++ le_bytes 4 (nNonce h) /\
  length (GetHex (hashPrevBlock h)) = 64%nat /\
  length (GetHex (hashMerkleRoot h)) = 64%nat.
Proof.
  intros (_ & Hp & Hm & _).
  assert (E : Serialize h =
    le_bytes 4 (nVersion h) ++ le_bytes 32 (value256 (hashPrevBlock h)) ++
    le_bytes 32 (value256 (hashMerkleRoot h)) ++ le_bytes 4 (nTime h) ++
    le_bytes 4 (nBits h) ++ le_bytes 4 (nNonce h)).
  { unfold Serialize. rewrite !put_u32_le, !put_hash_le by assumption. reflexivity. }
  split; [|split; [exact E|split; [|split; apply GetHex_length]]].
  - rewrite E, !length_app, !le_bytes_length. reflexivity.
  - unfold Serialize. destruct Hp as [Hp _], Hm as [Hm _].
    rewrite !put_u32_le, <- !put_hash_rev_hex by assumption. reflexivity.
Qed.

Lemma wf256_dec_true u :
  length u = 8%nat -> forallb (fun w => (0 <=? w) && (w <? 2 ^ 32)) u = true -> wf256 u.
Proof.
  intros Hl Hf. split; [assumption|].
  apply Forall_forall. intros w Hw.
  rewrite forallb_forall in Hf. specialize (Hf w Hw).
  unfold is_u32. lia.
Qed.

Lemma is_u32_dec_true x : (0 <=? x) && (x <? 2 ^ 32) = true -> is_u32 x.
Proof. unfold is_u32. lia. Qed.

Lemma main_genesis_wf : wfHeader main_genesis.
Proof.
  unfold wfHeader.
  repeat match goal with |- _ /\ _ => split end;
    first [ apply is_u32_dec_true; vm_compute; reflexivity
          | apply wf256_dec_true; vm_compute; reflexivity ].
Qed.

Lemma Serialize_layout_witness :
  wfHeader main_genesis /\
  length (Serialize main_genesis) = 80%nat.
Proof.
  split; [exact main_genesis_wf|].
  exact (proj1 (Serialize_layout main_genesis main_genesis_wf)).
Defined.

(** ** [SetHex] *)

Lemma lor_at_length u i v : length (lor_at u i v) = length u.
Proof.
  revert i. induction u as [|w r IH]; intros [|i]; simpl; auto.
Qed.

Lemma wrap32_range x : is_u32 (wrap32 x).
Proof. unfold is_u32, wrap32. apply Z.mod_pos_bound. reflexivity. Qed.

Lemma lor_at_u32 u i v : Forall is_u32 u -> Forall is_u32 (lor_at u i v).
Proof.
  intros H. revert i. induction H as [|w r Hw Hr IH]; intros [|i]; simpl.
  - constructor.
  - constructor.
  - constructor; [apply wrap32_range | assumption].
  - constructor; [assumption | apply IH].
Qed.

Lemma zero256_wf : wf256 zero256.
Proof.
  split; [reflexivity|].
  unfold zero256. apply Forall_forall. intros x Hx.
  apply repeat_spec in Hx. subst x. unfold is_u32. lia.
Qed.

Lemma SetHex_step_wf hex u i : wf256 u -> wf256 (SetHex_step hex u i).
Proof.
  intros [Hl Hu]. unfold SetHex_step.
  destruct (_ <? 0); [split; assumption|].
  split; [rewrite lor_at_length; assumption | apply lor_at_u32; assumption].
Qed.

(** Whatever the string, [SetHex] leaves eight 32-bit words. *)
Lemma SetHex_wf hex : wf256 (SetHex hex).
Proof.
  unfold SetHex. destruct (64 <? length hex)%nat; [apply zero256_wf|].
  generalize (upfrom 0 2 (Nat.div2 (S (length hex)))).
  intros l. generalize zero256_wf. generalize zero256.
  induction l as [|i l IH]; intros u Hu; simpl; [assumption|].
  apply IH, SetHex_step_wf, Hu.
Qed.

(** C8. A string of more than 64 characters is rejected as a whole by
    [SetHex]: the value is the zero [uint256] (all eight words 0, the number
    0, displayed as 64 zeros), whatever the characters are; no part of the
    string is parsed. *)
Theorem SetHex_overlong_is_zero (hex : cstring) :
  (64 < length hex)%nat ->
  SetHex hex = zero256 /\
  value256 (SetHex hex) = 0 /\
  GetHex (SetHex hex) = repeat "0"%char 64.
Proof.
  intros H. assert (E : SetHex hex = zero256).
  { unfold SetHex. apply Nat.ltb_lt in H. rewrite H. reflexivity. }
  rewrite E. repeat split; reflexivity.
Qed.

Lemma SetHex_overlong_is_zero_witness :
  SetHex (str "ffffffffffffffffffffffffffffffffffffffffffffffffffffffffffffffff01")
  = zero256.
Proof.
  apply (SetHex_overlong_is_zero
           (str "ffffffffffffffffffffffffffffffffffffffffffffffffffffffffffffffff01")).
  vm_compute. lia.
Defined.

(** ** The target of the stand-alone miner *)

(** C6. The compact target 0x1d00ffff has exponent 0x1d = 29 and mantissa
    0x00ffff and decodes to 0x00ffff shifted left by 8*(29-3) bits; the
    [uint256] holding that number displays as
    00000000ffff0000000000000000000000000000000000000000000000000000 (64
    digits), and it is the target of [main], whose header has
    [nBits = 0x1d00ffff]. *)
Theorem main_target_is_decoded_bits :
  Z.shiftr 0x1d00ffff 24 = 29 /\
  Z.land 0x1d00ffff 0x007fffff = 0x00ffff /\
  DecodeCompact 0x1d00ffff = Z.shiftl 0x00ffff (8 * (29 - 3)) /\
  GetHex (of_Z256 (DecodeCompact 0x1d00ffff)) =
    str "00000000ffff0000000000000000000000000000000000000000000000000000" /\
  length (str "00000000ffff0000000000000000000000000000000000000000000000000000") = 64%nat /\
  nBits main_genesis = 0x1d00ffff /\
  main_target = of_Z256 (DecodeCompact (nBits main_genesis)) /\
  value256 main_target = DecodeCompact (nBits main_genesis) /\
  (forall sha256 fuel,
     main sha256 fuel = mine_loop sha256 (of_Z256 (DecodeCompact 0x1d00ffff)) fuel main_genesis 0).
Proof.
  assert (E : main_target = of_Z256 (DecodeCompact 0x1d00ffff))
    by (vm_compute; reflexivity).
  repeat match goal with |- _ /\ _ => split end;
    try (intros sha256 fuel; unfold main; rewrite E; reflexivity);
    vm_compute; reflexivity.
Qed.

(** ** The order on [uint256] is the order on the numbers *)

Lemma value256_app l w :
  value256 (l ++ [w]) = value256 l + 2 ^ (32 * Z.of_nat (length l)) * w.
Proof.
  induction l as [|x l IH].
  - cbn [app value256 length]. change (2 ^ (32 * Z.of_nat 0)) with 1. lia.
  - cbn [app value256 length]. rewrite IH, Nat2Z.inj_succ.
    replace (32 * Z.succ (Z.of_nat (length l))) with (32 + 32 * Z.of_nat (length l)) by lia.
    rewrite Z.pow_add_r by lia. ring.
Qed.

Lemma value256_range l :
  Forall is_u32 l -> 0 <= value256 l < 2 ^ (32 * Z.of_nat (length l)).
Proof.
  induction 1 as [|w l Hw Hl IH].
  - cbn [value256 length]. change (2 ^ (32 * Z.of_nat 0)) with 1. lia.
  - cbn [value256 length]. rewrite Nat2Z.inj_succ.
    replace (32 * Z.succ (Z.of_nat (length l))) with (32 + 32 * Z.of_nat (length l)) by lia.
    rewrite Z.pow_add_r by lia. unfold is_u32 in Hw. nia.
Qed.

Lemma firstn_snoc (l : list Z) k :
  (k < length l)%nat -> firstn (S k) l = firstn k l ++ [nth k l 0].
Proof.
  revert k. induction l as [|x l IH]; intros k Hk; simpl in Hk; [lia|].
  destruct k as [|k]; [reflexivity|].
  cbn [firstn nth app]. f_equal. apply IH. lia.
Qed.

Lemma Forall_firstn (P : Z -> Prop) k l : Forall P l -> Forall P (firstn k l).
Proof.
  intros H. revert k. induction H; intros [|k]; simpl; constructor; auto.
Qed.

Lemma lt_from_spec k a b :
  Forall is_u32 a -> Forall is_u32 b ->
  (k <= length a)%nat -> (k <= length b)%nat ->
  lt_from k a b = (value256 (firstn k a) <? value256 (firstn k b)).
Proof.
  intros Ha Hb. induction k as [|k IH]; intros Hka Hkb.
  - reflexivity.
  - cbn [lt_from]. unfold word. rewrite Nat2Z.id.
    rewrite !firstn_snoc, !value256_app by lia.
    rewrite !length_firstn, !Nat.min_l by lia.
    pose proof (value256_range _ (Forall_firstn _ k _ Ha)) as Ra.
    pose proof (value256_range _ (Forall_firstn _ k _ Hb)) as Rb.
    rewrite !length_firstn, !Nat.min_l in Ra, Rb by lia.
    assert (Hwa : is_u32 (nth k a 0))
      by (apply (proj1 (Forall_forall _ _) Ha), nth_In; lia).
    assert (Hwb : is_u32 (nth k b 0))
      by (apply (proj1 (Forall_forall _ _) Hb), nth_In; lia).
    unfold is_u32 in Hwa, Hwb.
    set (p := 2 ^ (32 * Z.of_nat k)) in *.
    destruct (Z.ltb_spec (nth k a 0) (nth k b 0)) as [H1|H1].
    + symmetry. apply Z.ltb_lt. nia.
    + destruct (Z.ltb_spec (nth k b 0) (nth k a 0)) as [H2|H2].
      * symmetry. apply Z.ltb_ge. nia.
      * rewrite IH by lia. replace (nth k b 0) with (nth k a 0) by lia.
        destruct (Z.ltb_spec (value256 (firstn k a)) (value256 (firstn k b)));
          symmetry; [apply Z.ltb_lt | apply Z.ltb_ge]; lia.
Qed.

Lemma lt256_spec a b :
  wf256 a -> wf256 b -> lt256 a b = (value256 a <? value256 b).
Proof.
  intros [La Ha] [Lb Hb]. unfold lt256.
  rewrite lt_from_spec by (assumption || lia).
  rewrite <- La at 1. rewrite <- Lb at 1. rewrite !firstn_all. reflexivity.
Qed.

Lemma eq256_true a b : eq256 a b = true <-> a = b.
Proof.
  revert b. induction a as [|x a IH]; intros [|y b]; simpl; split; intros H;
    try reflexivity; try discriminate.
  - apply andb_true_iff in H. destruct H as [H1 H2].
    apply Z.eqb_eq in H1. apply IH in H2. congruence.
  - inversion H; subst. rewrite Z.eqb_refl. simpl. apply IH. reflexivity.
Qed.

Lemma value256_inj a b :
  length a = length b -> Forall is_u32 a -> Forall is_u32 b ->
  value256 a = value256 b -> a = b.
Proof.
  intros Hl Ha. revert b Hl. induction Ha as [|x a Hx Ha IH]; intros [|y b] Hl Hb Hv;
    try discriminate; [reflexivity|].
  inversion Hb as [|? ? Hy Hb']; subst. cbn [value256 length] in Hl, Hv.
  unfold is_u32 in Hx, Hy.
  assert (x = y) by lia. subst y.
  f_equal. apply IH; [lia | assumption | lia].
Qed.

Lemma le256_spec a b :
  wf256 a -> wf256 b -> le256 a b = (value256 a <=? value256 b).
Proof.
  intros Wa Wb. unfold le256. rewrite lt256_spec by assumption.
  destruct (eq256 a b) eqn:E.
  - apply eq256_true in E. subst b. rewrite orb_true_r.
    symmetry. apply Z.leb_le. lia.
  - rewrite orb_false_r.
    assert (value256 a <> value256 b).
    { intros Hv. destruct Wa as [La Ha], Wb as [Lb Hb].
      apply value256_inj in Hv; [|congruence|assumption|assumption].
      apply eq256_true in Hv. congruence. }
    destruct (Z.ltb_spec (value256 a) (value256 b));
      symmetry; [apply Z.leb_le | apply Z.leb_gt]; lia.
Qed.

(** ** The search loop of the stand-alone miner *)


Lemma header_at_0 g :
  nNonce g = 0 -> is_u32 (nTime g) -> header_at g 0 = g.
Proof.
  intros Hn Ht. unfold header_at, set_nonce_time.
  change (0 mod 2 ^ 32) with 0. change (0 / 2 ^ 32) with 0.
  rewrite Z.add_0_r, Z.mod_small by exact Ht.
  destruct g; simpl in *. subst. reflexivity.
Qed.

Lemma next_header_at g k :
  0 <= k -> next_header (header_at g k) = header_at g (k + 1).
Proof.
  intros Hk. unfold next_header, header_at, set_nonce_time, wrap32. cbn [nNonce nTime
    nVersion hashPrevBlock hashMerkleRoot nBits].
  rewrite Z.add_mod_idemp_l by lia.
  rewrite (Z.add_mod_idemp_l (nTime g + k / 2 ^ 32)) by lia.
  pose proof (Z.div_mod k (2 ^ 32) ltac:(lia)) as Dk.
  pose proof (Z.div_mod (k + 1) (2 ^ 32) ltac:(lia)) as Dk1.
  pose proof (Z.mod_pos_bound k (2 ^ 32) ltac:(lia)) as Bk.
  pose proof (Z.mod_pos_bound (k + 1) (2 ^ 32) ltac:(lia)) as Bk1.
  destruct (Z.eqb_spec ((k + 1) mod 2 ^ 32) 0) as [E|E].
  - rewrite E. replace ((k + 1) / 2 ^ 32) with (k / 2 ^ 32 + 1) by lia.
    rewrite Z.add_assoc. reflexivity.
  - replace ((k + 1) / 2 ^ 32) with (k / 2 ^ 32) by lia. reflexivity.
Qed.

Lemma wrap64_succ k : wrap64 (wrap64 k + 1) = wrap64 (k + 1).
Proof. unfold wrap64. apply Z.add_mod_idemp_l. lia. Qed.

Section StandaloneSearch.

Variable sha256 : list Z -> list Z.
Variable target : uint256.

Lemma mine_loop_inv fuel : forall g k r,
  0 <= k ->
  mine_loop sha256 target fuel (header_at g k) (wrap64 k) = Some r ->
  exists j, k <= j < k + Z.of_nat fuel /\
    r = mkResult (header_at g j) (Hash sha256 (Serialize (header_at g j))) (wrap64 (j + 1)) /\
    attempt sha256 target g j = true /\
    (forall i, k <= i < j -> attempt sha256 target g i = false).
Proof.
  induction fuel as [|fuel IH]; intros g k r Hk H.
  - discriminate.
  - cbn [mine_loop] in H.
    destruct (le256 (Hash sha256 (Serialize (header_at g k))) target) eqn:E.
    + inversion H; subst r. exists k. rewrite wrap64_succ.
      repeat split; try lia; try exact E.
    + rewrite next_header_at, wrap64_succ in H by lia.
      apply IH in H; [|lia].
      destruct H as (j & Hj & Hr & Ha & Hf).
      exists j. repeat split; try lia; try assumption.
      intros i Hi. destruct (Z.eq_dec i k) as [->|Hne]; [exact E|].
      apply Hf. lia.
Qed.

(** Enough fuel reaches the first successful attempt. *)
Lemma mine_loop_finds fuel : forall g k j,
  0 <= k <= j -> j < k + Z.of_nat fuel ->
  attempt sha256 target g j = true ->
  (forall i, k <= i < j -> attempt sha256 target g i = false) ->
  mine_loop sha256 target fuel (header_at g k) (wrap64 k) =
  Some (mkResult (header_at g j) (Hash sha256 (Serialize (header_at g j))) (wrap64 (j + 1))).
Proof.
  induction fuel as [|fuel IH]; intros g k j Hk Hj Ha Hf.
  - simpl in Hj. lia.
  - cbn [mine_loop]. destruct (Z.eq_dec k j) as [->|Hne].
    + unfold attempt in Ha. rewrite Ha, wrap64_succ. reflexivity.
    + assert (E : attempt sha256 target g k = false) by (apply Hf; lia).
      unfold attempt in E. rewrite E.
      rewrite next_header_at, wrap64_succ by lia.
      apply IH; try lia; try assumption.
      intros i Hi. apply Hf. lia.
Qed.

End StandaloneSearch.

(** ** The loop of [MineCustomCoinGenesisBlock] *)

Lemma with_nonce_twice b n m : with_nonce (with_nonce b n) m = with_nonce b m.
Proof. reflexivity. Qed.

Lemma kernel_target_min SetCompact bits powLimit :
  kernel_target SetCompact bits powLimit = Z.min (SetCompact bits) powLimit.
Proof.
  unfold kernel_target. destruct (Z.ltb_spec powLimit (SetCompact bits)); lia.
Qed.

Lemma kernel_loop_sound GetHash fuel : forall genesis hashTarget n r g',
  kernel_loop GetHash fuel genesis hashTarget n = Some (r, g') ->
  g' = with_nonce genesis r /\ GetHash g' <= hashTarget.
Proof.
  induction fuel as [|fuel IH]; intros genesis hashTarget n r g' H.
  - discriminate.
  - cbn [kernel_loop] in H.
    destruct (GetHash (with_nonce genesis n) <=? hashTarget) eqn:E.
    + inversion H; subst. split; [reflexivity | apply Z.leb_le, E].
    + apply IH in H. rewrite with_nonce_twice in H. exact H.
Qed.

(** C1. The single-threaded searches from nonce 0.  Stand-alone miner: when
    the loop stops, the reported hash is the double digest of the header as
    serialized with the reported nonce (and time), and it is at most the
    target, as [operator<=] decides it and as 256-bit unsigned numbers; the
    header is the one reached after some number [k] of failed attempts, the
    reported count is [k + 1] (modulo 2^64), and when the nonce has not
    overflowed ([k < 2^32]) the time is unchanged and the count is
    [nonce + 1].  The loop does stop, with that result, as soon as it is run
    past the first attempt that meets the target.  Kernel miner: when the
    loop returns, the digest of the block with the returned nonce is at most
    the (clamped) target. *)
Theorem search_result_meets_target :
  (forall sha256 target fuel g r,
     nNonce g = 0 -> is_u32 (nTime g) -> wf256 target ->
     mine_loop sha256 target fuel g 0 = Some r ->
     found_hash r = Hash sha256 (Serialize (found_header r)) /\
     le256 (found_hash r) target = true /\
     value256 (found_hash r) <= value256 target /\
     exists k,
       0 <= k < Z.of_nat fuel /\
       found_header r = header_at g k /\
       total_hashes r = (k + 1) mod 2 ^ 64 /\
       (forall i, 0 <= i < k -> attempt sha256 target g i = false) /\
       (k < 2 ^ 32 ->
        nNonce (found_header r) = k /\
        nTime (found_header r) = nTime g /\
        total_hashes r = nNonce (found_header r) + 1)) /\
  (forall sha256 target fuel g j,
     nNonce g = 0 -> is_u32 (nTime g) ->
     0 <= j < Z.of_nat fuel ->
     attempt sha256 target g j = true ->
     (forall i, 0 <= i < j -> attempt sha256 target g i = false) ->
     mine_loop sha256 target fuel g 0 =
       Some (mkResult (header_at g j) (Hash sha256 (Serialize (header_at g j)))
                      ((j + 1) mod 2 ^ 64))) /\
  (forall SetCompact GetHash fuel genesis powLimit nonce genesis',
     MineCustomCoinGenesisBlock SetCompact GetHash fuel genesis powLimit
       = Some (nonce, genesis') ->
     genesis' = with_nonce genesis nonce /\
     GetHash (with_nonce genesis nonce)
       <= Z.min (SetCompact (blk_nBits genesis)) powLimit).
Proof.
  split; [|split].
  - intros sha256 target fuel g r Hn Ht Wt H.
    rewrite <- (header_at_0 g Hn Ht) in H at 1.
    change 0 with (wrap64 0) in H at 2.
    apply mine_loop_inv in H; [|lia].
    destruct H as (k & Hk & -> & Ha & Hf).
    cbn [found_hash found_header total_hashes].
    unfold attempt in Ha.
    repeat split; try assumption.
    + apply Z.leb_le. rewrite <- le256_spec; [exact Ha | apply SetHex_wf | exact Wt].
    + exists k. repeat split; try lia; try assumption.
      * unfold header_at. cbn [nNonce set_nonce_time]. apply Z.mod_small. lia.
      * unfold header_at. cbn [nTime set_nonce_time].
        rewrite Z.div_small, Z.add_0_r by lia. apply Z.mod_small, Ht.
      * unfold header_at, wrap64. cbn [nNonce set_nonce_time].
        rewrite !Z.mod_small; lia.
  - intros sha256 target fuel g j Hn Ht Hj Ha Hf.
    rewrite <- (header_at_0 g Hn Ht) at 1.
    change 0 with (wrap64 0) at 2.
    apply mine_loop_finds; try assumption; lia.
  - intros SetCompact GetHash fuel genesis powLimit nonce genesis' H.
    unfold MineCustomCoinGenesisBlock in H.
    apply kernel_loop_sound in H. destruct H as [-> H].
    rewrite kernel_target_min in H. split; [reflexivity | exact H].
Qed.

Lemma search_result_meets_target_witness :
  (exists r,
     mine_loop SHA256.digest easy_target 4 main_genesis 0 = Some r /\
     value256 (found_hash r) <= value256 easy_target /\
     exists k, 0 <= k < 4 /\ total_hashes r = (k + 1) mod 2 ^ 64) /\
  (exists n,
     MineCustomCoinGenesisBlock DecodeCompact sample_GetHash 4 sample_block (2 ^ 256 - 1)
       = Some (n, with_nonce sample_block n) /\
     sample_GetHash (with_nonce sample_block n)
       <= Z.min (DecodeCompact (blk_nBits sample_block)) (2 ^ 256 - 1)).
Proof.
  split.
  - eexists. split; [vm_compute; reflexivity|].
    match goal with |- context [found_hash ?r] => set (res := r) end.
    assert (Hn : nNonce main_genesis = 0) by reflexivity.
    assert (Ht : is_u32 (nTime main_genesis))
      by (apply is_u32_dec_true; vm_compute; reflexivity).
    assert (Hrun : mine_loop SHA256.digest easy_target 4 main_genesis 0 = Some res)
      by (vm_compute; reflexivity).
    destruct (proj1 search_result_meets_target SHA256.digest easy_target 4%nat
                main_genesis res Hn Ht (SetHex_wf _) Hrun)
      as (_ & _ & Hle & k & Hk & _ & Hh & _).
    split; [exact Hle|]. exists k. split; [exact Hk | exact Hh].
  - exists 2. split; [vm_compute; reflexivity|].
    apply (proj2 (proj2 search_result_meets_target) DecodeCompact sample_GetHash 4%nat sample_block
             (2 ^ 256 - 1) 2 (with_nonce sample_block 2)).
    vm_compute; reflexivity.
Defined.

(** ** [Hash] reads the digest most significant byte first *)

Lemma lor_disjoint x y k :
  0 <= k -> 0 <= y < 2 ^ k -> Z.lor (x * 2 ^ k) y = x * 2 ^ k + y.
Proof.
  intros Hk Hy.
  assert (L : Z.land (x * 2 ^ k) y = 0).
  { apply Z.bits_inj'. intros n Hn. rewrite Z.land_spec, Z.bits_0.
    destruct (Z.lt_ge_cases n k) as [Hlt|Hge].
    - rewrite Z.mul_pow2_bits_low by lia. reflexivity.
    - rewrite <- (Z.mod_small y (2 ^ k)) by lia.
      rewrite Z.mod_pow2_bits_high by lia. apply andb_false_r. }
  rewrite <- Z.lxor_lor by exact L.
  symmetry. apply Z.add_nocarry_lxor. exact L.
Qed.

Lemma pack_word a b c d :
  is_byte a -> is_byte b -> is_byte c -> is_byte d ->
  wrap32 (Z.lor (wrap32 (Z.lor (wrap32 (Z.lor (wrap32 (Z.lor 0 (Z.shiftl a 24)))
                                              (Z.shiftl b 16)))
                               (Z.shiftl c 8)))
                (Z.shiftl d 0))
  = a * 2 ^ 24 + b * 2 ^ 16 + c * 2 ^ 8 + d.
Proof.
  unfold is_byte, wrap32. intros Ha Hb Hc Hd.
  rewrite !Z.shiftl_mul_pow2 by lia. rewrite Z.lor_0_l.
  change (2 ^ 0) with 1. rewrite Z.mul_1_r.
  rewrite (Z.mod_small (a * 2 ^ 24)) by lia.
  rewrite lor_disjoint by lia.
  rewrite (Z.mod_small (a * 2 ^ 24 + b * 2 ^ 16)) by lia.
  replace (a * 2 ^ 24 + b * 2 ^ 16) with ((a * 2 ^ 8 + b) * 2 ^ 16) by lia.
  rewrite lor_disjoint by lia.
  rewrite (Z.mod_small ((a * 2 ^ 8 + b) * 2 ^ 16 + c * 2 ^ 8)) by lia.
  replace ((a * 2 ^ 8 + b) * 2 ^ 16 + c * 2 ^ 8)
    with ((a * 2 ^ 16 + b * 2 ^ 8 + c) * 2 ^ 8) by lia.
  rewrite lor_disjoint by lia.
  rewrite Z.mod_small by lia. lia.
Qed.

(** The loop of [SetHex] on a string of 32 digit pairs, for any digit
    printer [f] and pair parser [g]: pair [i] lands in byte [31 - i]. *)
Lemma SetHex_shape (f : Z -> Z -> ascii) (g : cstring -> Z)
    b0 b1 b2 b3 b4 b5 b6 b7 b8 b9 b10 b11 b12 b13 b14 b15
    b16 b17 b18 b19 b20 b21 b22 b23 b24 b25 b26 b27 b28 b29 b30 b31 :
  let P b := g [f b 1; f b 0] in
  let W a b c d :=
    wrap32 (Z.lor (wrap32 (Z.lor (wrap32 (Z.lor (wrap32 (Z.lor 0 (Z.shiftl (P a) 24)))
                                                (Z.shiftl (P b) 16)))
                                 (Z.shiftl (P c) 8)))
                  (Z.shiftl (P d) 0)) in
  let hex := flat_map (fun b => map (fun k => f b k) (downfrom 1 1 2))
      [b0; b1; b2; b3; b4; b5; b6; b7; b8; b9; b10; b11; b12; b13; b14; b15;
       b16; b17; b18; b19; b20; b21; b22; b23; b24; b25; b26; b27; b28; b29; b30; b31] in
  (if (64 <? length hex)%nat then zero256
   else fold_left (fun data i =>
          let len := Z.of_nat (length hex) in
          let byte_pos := to_int (wrap64 (len - i - 2) / 2) in
          let word_pos := Z.quot byte_pos 4 in
          let byte_in_word := Z.rem byte_pos 4 in
          let byte_str := firstn 2 (skipn (Z.to_nat i) hex) in
          let byte_val := g byte_str in
          if byte_in_word <? 0 then data
          else lor_at data (Z.to_nat word_pos) (Z.shiftl byte_val (byte_in_word * 8)))
        (upfrom 0 2 (Nat.div2 (S (length hex)))) zero256)
  = [ W b28 b29 b30 b31; W b24 b25 b26 b27; W b20 b21 b22 b23; W b16 b17 b18 b19;
      W b12 b13 b14 b15; W b8 b9 b10 b11; W b4 b5 b6 b7; W b0 b1 b2 b3 ].
Proof. reflexivity. Qed.

Lemma byte_at_0 b : is_byte b -> byte_at b 0 = b.
Proof.
  unfold is_byte, byte_at. intros Hb.
  change (8 * 0) with 0. rewrite Z.shiftr_0_r.
  change 255 with (Z.ones 8). rewrite Z.land_ones by lia.
  apply Z.mod_small. exact Hb.
Qed.

Lemma hex_pair_of_byte b :
  is_byte b ->
  to_byte (strtol16 [hex_char (nibble b 1); hex_char (nibble b 0)]) = b.
Proof.
  intros Hb. rewrite <- (byte_at_0 b Hb) at 3. exact (hex_pair_byte b 0 ltac:(lia)).
Qed.

Ltac bytes_32 d H :=
  do 32 (let b := fresh "b" in destruct d as [|b d]; [discriminate H|]);
  destruct d; [clear H | discriminate H].

(** [Hash] gives the number whose most significant byte is the first byte
    of the double digest. *)
Lemma Hash_value_big_endian (sha256 : list Z -> list Z) (data : list Z) :
  length (sha256 (sha256 data)) = 32%nat ->
  Forall is_byte (sha256 (sha256 data)) ->
  value256 (Hash sha256 data) = be_value (sha256 (sha256 data)).
Proof.
  unfold Hash. generalize (sha256 (sha256 data)). intros d Hl Hd.
  bytes_32 d Hl.
  repeat match goal with
         | H : Forall _ (_ :: _) |- _ => inversion H; subst; clear H
         end.
  unfold SetHex, SetHex_step, hex_of_bytes, hex_fixed, substr.
  rewrite (SetHex_shape (fun b k => hex_char (nibble b k))
                        (fun s => to_byte (strtol16 s))).
  cbv zeta. rewrite !hex_pair_of_byte by assumption.
  rewrite !pack_word by assumption.
  unfold be_value, is_byte in *. cbn [fold_left value256]. lia.
Qed.

(** C2. [Hash] applies the digest function twice, but reads the result with
    its first byte as the most significant one: for every 32-byte digest the
    value of [Hash] is the big-endian number of the digest's bytes.  At the
    header of Bitcoin's genesis block the double SHA-256 ends in four zero
    bytes: read with the first byte least significant it is below the
    target, yet [Hash] gives the byte-reversed number and the miner's test
    [hash <= target] fails. *)
Theorem Hash_is_big_endian_on_bitcoin_genesis :
  (forall sha256 data,
     Hash sha256 data = SetHex (hex_of_bytes (sha256 (sha256 data)))) /\
  (forall sha256 data,
     length (sha256 (sha256 data)) = 32%nat ->
     Forall is_byte (sha256 (sha256 data)) ->
     value256 (Hash sha256 data) = be_value (sha256 (sha256 data))) /\
  Hash SHA256.digest (Serialize bitcoin_genesis)
    = SetHex (hex_of_bytes bitcoin_genesis_digest) /\
  hex_of_bytes bitcoin_genesis_digest
    = str "6fe28c0ab6f1b372c1a6a246ae63f74f931e8365e15a089c68d6190000000000" /\
  value256 (Hash SHA256.digest (Serialize bitcoin_genesis))
    = be_value bitcoin_genesis_digest /\
  value256 (Hash SHA256.digest (Serialize bitcoin_genesis))
    <> le_value bitcoin_genesis_digest /\
  le_value bitcoin_genesis_digest <= value256 main_target /\
  le256 (Hash SHA256.digest (Serialize bitcoin_genesis)) main_target = false.
Proof.
  split; [intros sha256 data; reflexivity|].
  split; [exact Hash_value_big_endian|].
  repeat match goal with |- _ /\ _ => split end;
    try (vm_compute; reflexivity).
  - intros H. vm_compute in H. discriminate H.
  - vm_compute. discriminate.
Qed.

(** ** Nonce overflow *)

(** In the stand-alone miner two increments from nonce 0xFFFFFFFE give nonce
    0 and the time plus one (modulo 2^32), every other field unchanged. *)
Lemma next_header_wraps g :
  nNonce g = 0xFFFFFFFE ->
  next_header (next_header g) = set_nonce_time g 0 (wrap32 (nTime g + 1)).
Proof.
  intros H. unfold next_header at 2. rewrite H.
  change (wrap32 (4294967294 + 1) =? 0) with false. cbv iota.
  unfold next_header. cbn [nNonce nTime set_nonce_time].
  change (wrap32 (wrap32 (4294967294 + 1) + 1) =? 0) with true. cbv iota.
  unfold set_nonce_time. reflexivity.
Qed.

(** When no 32-bit nonce meets the target the kernel loop never returns. *)
Lemma kernel_loop_none (GetHash : CBlock -> Z) (hashTarget : Z) fuel :
  forall genesis,
  (forall n, 0 <= n < 2 ^ 32 -> hashTarget < GetHash (with_nonce genesis n)) ->
  forall n, 0 <= n < 2 ^ 32 ->
  kernel_loop GetHash fuel genesis hashTarget n = None.
Proof.
  induction fuel as [|fuel IH]; intros genesis Hall n Hn; [reflexivity|].
  cbn [kernel_loop].
  pose proof (Hall n Hn) as Hf. apply Z.leb_gt in Hf. rewrite Hf.
  apply IH.
  - intros m Hm. rewrite with_nonce_twice. apply Hall, Hm.
  - unfold wrap32. apply Z.mod_pos_bound. reflexivity.
Qed.

(** C4. On nonce overflow the two single-threaded loops differ.  In the
    stand-alone miner two increments from nonce 0xFFFFFFFE give nonce 0 and
    the time plus one, every other field unchanged.  In
    [MineCustomCoinGenesisBlock] the nonce wraps without the time changing:
    when the attempts at nonces 0xFFFFFFFE and 0xFFFFFFFF fail, the loop goes
    on at nonce 0 on a block whose [nTime] (like every field but the nonce)
    is the one it started with; and when no 32-bit nonce meets the target
    the loop never returns, however long it runs. *)
Theorem kernel_loop_wraps_without_time :
  (forall g,
     nNonce g = 0xFFFFFFFE ->
     next_header (next_header g) = set_nonce_time g 0 (wrap32 (nTime g + 1))) /\
  (forall (GetHash : CBlock -> Z) (genesis : CBlock) (hashTarget : Z),
     hashTarget < GetHash (with_nonce genesis 0xFFFFFFFE) ->
     hashTarget < GetHash (with_nonce genesis 0xFFFFFFFF) ->
     (forall fuel,
        kernel_loop GetHash (S (S fuel)) genesis hashTarget 0xFFFFFFFE =
        kernel_loop GetHash fuel (with_nonce genesis 0xFFFFFFFF) hashTarget 0) /\
     blk_nTime (with_nonce genesis 0xFFFFFFFF) = blk_nTime genesis /\
     ((forall n, 0 <= n < 2 ^ 32 -> hashTarget < GetHash (with_nonce genesis n)) ->
      forall fuel n, 0 <= n < 2 ^ 32 ->
        kernel_loop GetHash fuel genesis hashTarget n = None)).
Proof.
  split; [exact next_header_wraps|].
  intros GetHash genesis hashTarget H1 H2. split; [|split].
  - intros fuel. cbn [kernel_loop].
    apply Z.leb_gt in H1. rewrite H1.
    change (wrap32 (4294967294 + 1)) with 4294967295.
    rewrite with_nonce_twice.
    apply Z.leb_gt in H2. rewrite H2.
    reflexivity.
  - reflexivity.
  - intros Hall fuel n Hn. apply kernel_loop_none; assumption.
Qed.

Lemma kernel_loop_wraps_without_time_witness :
  kernel_loop worst_GetHash 5 sample_block 0 0xFFFFFFFE =
  kernel_loop worst_GetHash 3 (with_nonce sample_block 0xFFFFFFFF) 0 0 /\
  kernel_loop worst_GetHash 5 sample_block 0 0xFFFFFFFE = None /\
  next_header (next_header (set_nonce_time main_genesis 0xFFFFFFFE 1737933600))
    = set_nonce_time main_genesis 0 1737933601.
Proof.
  destruct (proj2 kernel_loop_wraps_without_time worst_GetHash sample_block 0)
    as (Hstep & _ & Hnone).
  - vm_compute. reflexivity.
  - vm_compute. reflexivity.
  - split; [apply (Hstep 3%nat)|]. split.
    + apply Hnone; [intros n _; vm_compute; reflexivity | lia].
    + exact (proj1 kernel_loop_wraps_without_time
               (set_nonce_time main_genesis 0xFFFFFFFE 1737933600) eq_refl).
Defined.

(** ** The target of [MineBlock] *)

(** C5. [MineBlock] compares against the decoded compact target as it is,
    where [MineCustomCoinGenesisBlock] compares against the smaller of the
    decoded target and the limit.  For a block whose decoded target is above
    the limit and a digest in between, at the same nonce [c]: the kernel
    miner's threshold is the limit, its loop passes the nonce over, and
    [MineBlock] returns it. *)
Theorem MineBlock_target_is_not_clamped (CScript double : Type)
    (SetCompact : Z -> Z) (GetHash : CBlock -> Z) (block : CBlock)
    (m : Miner CScript double) (powLimit : Z) (fuel : nat) :
  let c := current_nonce_ m in
  let bits := blk_nBits block in
  stop_mining_ m = false ->
  0 <= c -> c + 2000 < 2 ^ 32 ->
  powLimit < GetHash (with_nonce block c) <= SetCompact bits ->
  kernel_target SetCompact bits powLimit = Z.min (SetCompact bits) powLimit /\
  kernel_target SetCompact bits powLimit = powLimit /\
  kernel_loop GetHash (S fuel) block (kernel_target SetCompact bits powLimit) c =
    kernel_loop GetHash fuel (with_nonce block c)
                (kernel_target SetCompact bits powLimit) (wrap32 (c + 1)) /\
  MineBlock SetCompact GetHash (S fuel) block m =
    Some (Some c, [c],
          mkMiner (config_ m) (stats_ m) (mining_threads_ m) false (c + 1000)).
Proof.
  intros c bits Hs Hc0 Hc [Hlo Hhi].
  assert (Hk : kernel_target SetCompact bits powLimit = powLimit).
  { rewrite kernel_target_min. lia. }
  split; [apply kernel_target_min|]. split; [exact Hk|]. split.
  - cbn [kernel_loop]. rewrite Hk.
    apply Z.leb_gt in Hlo. rewrite Hlo. reflexivity.
  - unfold MineBlock, fetch_add. fold c. cbn [MineBlock_loop current_nonce_ stop_mining_].
    rewrite Hs. cbn [negb]. rewrite andb_true_r.
    assert (W1 : wrap32 (c + 1000) = c + 1000) by (apply Z.mod_small; lia).
    rewrite W1.
    assert (W2 : wrap32 (c + 1000 + 1000) = c + 2000)
      by (unfold wrap32; rewrite Z.mod_small; lia).
    rewrite W2.
    destruct (Z.ltb_spec c (c + 2000)) as [_|]; [|lia].
    fold bits. apply Z.leb_le in Hhi. rewrite Hhi. reflexivity.
Qed.

Lemma MineBlock_target_is_not_clamped_witness :
  DecodeCompact 0x207fffff = 0x7fffff * 2 ^ 232 /\
  kernel_target DecodeCompact 0x207fffff mainnet_powLimit = mainnet_powLimit /\
  MineBlock DecodeCompact (fun _ => 2 ^ 240) 1 (block_template 0) (new_miner 0) =
    Some (Some 0, [0],
          mkMiner default_config (mkStats 0 0 0 0 false) [] false 1000).
Proof.
  split; [vm_compute; reflexivity|].
  destruct (MineBlock_target_is_not_clamped Script Z DecodeCompact (fun _ => 2 ^ 240)
              (block_template 0) (new_miner 0) mainnet_powLimit 0)
    as (_ & Hk & _ & Hm).
  - reflexivity.
  - vm_compute. discriminate.
  - vm_compute. reflexivity.
  - split; vm_compute; [reflexivity | discriminate].
  - split; [exact Hk | exact Hm].
Defined.

(** ** The nonce blocks of [MineBlock] *)

Lemma upfrom_snoc a n : upfrom a 1 (S n) = a :: upfrom (a + 1) 1 n.
Proof. reflexivity. Qed.

Lemma In_upfrom x n : forall a, In x (upfrom a 1 n) <-> a <= x < a + Z.of_nat n.
Proof.
  induction n as [|n IH]; intros a.
  - simpl. lia.
  - rewrite upfrom_snoc. cbn [In]. rewrite IH. lia.
Qed.

Section MineBlockRuns.

Context {CScript double : Type}.
Variable GetHash : CBlock -> Z.

Lemma add_hash_nonce (m : Miner CScript double) :
  current_nonce_ (add_hash _ _ m) = current_nonce_ m /\
  stop_mining_ (add_hash _ _ m) = stop_mining_ m.
Proof. split; reflexivity. Qed.

(** With the stop flag down and every digest above the target, the loop
    runs up to the bound it reads from the shared counter. *)
Lemma MineBlock_loop_exhausts fuel :
  forall block target nonce tested (m : Miner CScript double),
  stop_mining_ m = false ->
  0 <= nonce <= wrap32 (current_nonce_ m + 1000) ->
  wrap32 (current_nonce_ m + 1000) - nonce < Z.of_nat fuel ->
  (forall n, nonce <= n < wrap32 (current_nonce_ m + 1000) ->
             target < GetHash (with_nonce block n)) ->
  exists m',
    MineBlock_loop GetHash fuel block target nonce tested m =
      Some (None,
            tested ++ upfrom nonce 1 (Z.to_nat (wrap32 (current_nonce_ m + 1000) - nonce)),
            m') /\
    current_nonce_ m' = current_nonce_ m /\ stop_mining_ m' = false.
Proof.
  induction fuel as [|fuel IH]; intros block target nonce tested m Hs Hn Hf Hall.
  - simpl in Hf. lia.
  - cbn [MineBlock_loop]. rewrite Hs. cbn [negb]. rewrite andb_true_r.
    set (bound := wrap32 (current_nonce_ m + 1000)) in *.
    assert (Hb : bound < 2 ^ 32) by (apply Z.mod_pos_bound; reflexivity).
    destruct (Z.ltb_spec nonce bound) as [Hlt|Hge].
    + pose proof (Hall nonce ltac:(lia)) as Hh. apply Z.leb_gt in Hh. rewrite Hh.
      assert (Hw : wrap32 (nonce + 1) = nonce + 1)
        by (apply Z.mod_small; lia).
      rewrite Hw.
      destruct (IH (with_nonce block nonce) target (nonce + 1) (tested ++ [nonce])
                   (add_hash _ _ m)) as (m' & Hr & Hc & Hs').
      * exact Hs.
      * cbn [add_hash current_nonce_]. fold bound. lia.
      * cbn [add_hash current_nonce_]. fold bound. lia.
      * cbn [add_hash current_nonce_]. fold bound. intros n Hn'.
        rewrite with_nonce_twice. apply Hall. lia.
      * exists m'. cbn [add_hash current_nonce_] in Hr, Hc. fold bound in Hr.
        rewrite Hr. split; [|split; assumption].
        rewrite <- app_assoc. cbn [app].
        replace (Z.to_nat (bound - nonce)) with (S (Z.to_nat (bound - (nonce + 1)))) by lia.
        reflexivity.
    + exists m. replace (bound - nonce) with 0 by lia.
      cbn [Z.to_nat upfrom]. rewrite app_nil_r. auto.
Qed.

End MineBlockRuns.

(** C7. Two successive calls of [MineBlock] by one worker, the stop flag
    down and no digest meeting the target: the first call claims the block
    of 1000 nonces from [c] and hashes the 2000 nonces from [c]; the second
    claims the block from [c + 1000] and hashes the 2000 nonces from
    [c + 1000].  The nonces from [c + 1000] to [c + 1999] are hashed by both
    calls, and by the first call outside the block it claimed. *)
Theorem MineBlock_calls_overlap (CScript double : Type)
    (SetCompact : Z -> Z) (GetHash : CBlock -> Z)
    (block1 block2 : CBlock) (m : Miner CScript double) (fuel : nat) :
  let c := current_nonce_ m in
  stop_mining_ m = false ->
  0 <= c -> c + 3000 < 2 ^ 32 ->
  (2000 < fuel)%nat ->
  (forall n, c <= n < c + 3000 ->
     SetCompact (blk_nBits block1) < GetHash (with_nonce block1 n) /\
     SetCompact (blk_nBits block2) < GetHash (with_nonce block2 n)) ->
  exists m1 m2,
    MineBlock SetCompact GetHash fuel block1 m = Some (None, upfrom c 1 2000, m1) /\
    current_nonce_ m1 = c + 1000 /\
    MineBlock SetCompact GetHash fuel block2 m1
      = Some (None, upfrom (c + 1000) 1 2000, m2) /\
    current_nonce_ m2 = c + 2000 /\
    forall n, c + 1000 <= n < c + 2000 ->
      In n (upfrom c 1 2000) /\ In n (upfrom (c + 1000) 1 2000).
Proof.
  intros c Hs Hc0 Hc Hfuel Hall.
  assert (W : forall d, 0 <= d <= 3000 -> wrap32 (c + d) = c + d)
    by (intros d Hd; apply Z.mod_small; lia).
  unfold MineBlock, fetch_add. fold c.
  destruct (MineBlock_loop_exhausts GetHash fuel block1 (SetCompact (blk_nBits block1)) c []
              (mkMiner (config_ m) (stats_ m) (mining_threads_ m) (stop_mining_ m)
                       (wrap32 (c + 1000)))) as (m1 & Hr1 & Hc1 & Hs1);
    cbn [current_nonce_ stop_mining_]; rewrite ?(W 1000) by lia;
    replace (c + 1000 + 1000) with (c + 2000) by lia; rewrite ?(W 2000) by lia;
    try assumption; try lia.
  { intros n Hn. apply Hall. lia. }
  cbn [current_nonce_ stop_mining_ app] in Hr1, Hc1.
  rewrite (W 1000) in Hr1, Hc1 by lia.
  replace (c + 1000 + 1000) with (c + 2000) in Hr1 by lia.
  rewrite (W 2000) in Hr1 by lia.
  replace (Z.to_nat (c + 2000 - c)) with 2000%nat in Hr1 by lia.
  exists m1.
  destruct (MineBlock_loop_exhausts GetHash fuel block2 (SetCompact (blk_nBits block2))
              (c + 1000) []
              (mkMiner (config_ m1) (stats_ m1) (mining_threads_ m1) (stop_mining_ m1)
                       (wrap32 (current_nonce_ m1 + 1000)))) as (m2 & Hr2 & Hc2 & Hs2);
    cbn [current_nonce_ stop_mining_]; rewrite ?Hc1;
    replace (c + 1000 + 1000) with (c + 2000) by lia; rewrite ?(W 2000) by lia;
    replace (c + 2000 + 1000) with (c + 3000) by lia; rewrite ?(W 3000) by lia;
    try assumption; try lia.
  { intros n Hn. apply Hall. lia. }
  cbn [current_nonce_ stop_mining_ app] in Hr2, Hc2.
  rewrite Hc1 in Hr2, Hc2.
  replace (c + 1000 + 1000) with (c + 2000) in Hr2, Hc2 by lia.
  rewrite (W 2000) in Hr2, Hc2 by lia.
  replace (c + 2000 + 1000) with (c + 3000) in Hr2 by lia.
  rewrite (W 3000) in Hr2 by lia.
  replace (Z.to_nat (c + 3000 - (c + 1000))) with 2000%nat in Hr2 by lia.
  exists m2. rewrite ?Hc1.
  repeat split; try assumption.
  - apply In_upfrom. lia.
  - apply In_upfrom. lia.
Qed.

Lemma MineBlock_calls_overlap_witness :
  exists m1 m2,
    MineBlock DecodeCompact worst_GetHash 2001 (block_template 0) (new_miner 0)
      = Some (None, upfrom 0 1 2000, m1) /\
    current_nonce_ m1 = 1000 /\
    MineBlock DecodeCompact worst_GetHash 2001 (block_template 1) m1
      = Some (None, upfrom 1000 1 2000, m2) /\
    current_nonce_ m2 = 2000 /\
    forall n, 1000 <= n < 2000 ->
      In n (upfrom 0 1 2000) /\ In n (upfrom 1000 1 2000).
Proof.
  apply (MineBlock_calls_overlap Script Z DecodeCompact worst_GetHash (block_template 0)
           (block_template 1) (new_miner 0) 2001).
  - reflexivity.
  - vm_compute. discriminate.
  - vm_compute. reflexivity.
  - lia.
  - intros n _. split; vm_compute; reflexivity.
Defined.

(** ** [StartMining] *)

(** C9. Called while [is_mining] is set, [StartMining] returns [false] and
    the miner is exactly as it was: no thread is added to
    [mining_threads_], and [config_], [stop_mining_] and [stats_] keep their
    values. *)
Theorem StartMining_while_mining (CScript double : Type)
    (config : MiningConfig CScript) (now : Z) (m : Miner CScript double) :
  is_mining (stats_ m) = true ->
  StartMining config now m = (false, m) /\
  mining_threads_ (snd (StartMining config now m)) = mining_threads_ m /\
  config_ (snd (StartMining config now m)) = config_ m /\
  stop_mining_ (snd (StartMining config now m)) = stop_mining_ m /\
  stats_ (snd (StartMining config now m)) = stats_ m.
Proof.
  intros H. unfold StartMining. rewrite H. repeat split; reflexivity.
Qed.

Lemma StartMining_while_mining_witness :
  StartMining (mkConfig 4 true true true [] 4000000 1000) 200
    (mkMiner default_config (mkStats 5 0 0 100 true) [0] true 1000)
  = (false, mkMiner default_config (mkStats 5 0 0 100 true) [0] true 1000).
Proof.
  apply (StartMining_while_mining Script Z). reflexivity.
Defined.

(** ** [SetupMiner] *)

Lemma firstn_repeat_le (x : Z) n : forall m,
  (n <= m)%nat -> firstn n (repeat x m) = repeat x n.
Proof.
  induction n as [|n IH]; intros [|m] H; try reflexivity; [lia|].
  cbn [repeat firstn]. f_equal. apply IH. lia.
Qed.

Lemma addr_bytes_spec address :
  addr_bytes address = firstn 20 (string_bytes address ++ repeat 0 20).
Proof.
  unfold addr_bytes. set (bs := string_bytes address).
  destruct (Nat.ltb_spec 20 (length bs)) as [H|H].
  - rewrite length_firstn, Nat.min_l by lia.
    change (20 - 20)%nat with 0%nat. cbn [repeat]. rewrite app_nil_r.
    rewrite firstn_app. replace (20 - length bs)%nat with 0%nat by lia.
    rewrite firstn_O, app_nil_r. reflexivity.
  - rewrite firstn_app, firstn_all2 by lia. f_equal.
    symmetry. apply firstn_repeat_le. lia.
Qed.

Lemma addr_bytes_firstn address :
  addr_bytes address = addr_bytes (firstn 20 address).
Proof.
  rewrite !addr_bytes_spec. unfold string_bytes.
  rewrite <- firstn_map. set (bs := map _ address).
  destruct (Nat.le_gt_cases 20 (length bs)) as [H|H].
  - rewrite !firstn_app, length_firstn. rewrite Nat.min_l by lia.
    rewrite Nat.sub_diag. replace (20 - length bs)%nat with 0%nat by lia.
    rewrite !firstn_O, !app_nil_r.
    rewrite firstn_firstn, Nat.min_id. reflexivity.
  - rewrite (firstn_all2 bs) by lia. reflexivity.
Qed.

(** C10. With [-address] set to any non-empty string (and no invalid
    [-threads]), [SetupMiner] succeeds and the reward script is
    [OP_DUP OP_HASH160 <20 bytes> OP_EQUALVERIFY OP_CHECKSIG], the 20 bytes
    being the first 20 bytes of the string followed by zeros when it is
    shorter; two strings with the same first 20 characters give the same
    script. *)
Theorem SetupMiner_address_truncated :
  (forall hw args address,
     arg_address args = Some address -> address <> [] ->
     (forall v, arg_threads args = Some v -> 0 < to_int v) ->
     fst (SetupMiner hw args) = true /\
     mining_address (snd (SetupMiner hw args)) =
       [PushOp OP_DUP; PushOp OP_HASH160;
        PushData (firstn 20 (string_bytes address ++ repeat 0 20));
        PushOp OP_EQUALVERIFY; PushOp OP_CHECKSIG] /\
     length (firstn 20 (string_bytes address ++ repeat 0 20)) = 20%nat) /\
  (forall a1 a2, firstn 20 a1 = firstn 20 a2 -> reward_script a1 = reward_script a2).
Proof.
  split.
  - intros hw args address Ha Hne Ht.
    assert (Hl : length (firstn 20 (string_bytes address ++ repeat 0 20)) = 20%nat).
    { rewrite length_firstn, length_app, repeat_length. lia. }
    unfold SetupMiner. rewrite Ha.
    destruct address as [|c address]; [congruence|].
    destruct (arg_threads args) as [v|] eqn:Ev.
    + specialize (Ht v eq_refl). cbn [with_threads threads].
      destruct (Z.leb_spec (to_int v) 0) as [H|H]; [lia|].
      cbn [fst snd with_address mining_address]. unfold reward_script.
      rewrite addr_bytes_spec. auto.
    + cbn [fst snd with_address mining_address]. unfold reward_script.
      rewrite addr_bytes_spec. auto.
  - intros a1 a2 H. unfold reward_script.
    rewrite (addr_bytes_firstn a1), (addr_bytes_firstn a2), H. reflexivity.
Qed.

Lemma SetupMiner_address_truncated_witness :
  fst (SetupMiner 8 (mkArgs (Some 4) (Some (str "sc1qexampleaddress0123456789")))) = true /\
  reward_script (str "sc1qexampleaddress0123456789") =
  reward_script (str "sc1qexampleaddress01ABCDEFGH").
Proof.
  split.
  - apply (proj1 SetupMiner_address_truncated 8
             (mkArgs (Some 4) (Some (str "sc1qexampleaddress0123456789")))
             (str "sc1qexampleaddress0123456789")).
    + reflexivity.
    + vm_compute. discriminate.
    + intros v Hv. injection Hv as <-. vm_compute. reflexivity.
  - apply (proj2 SetupMiner_address_truncated). vm_compute. reflexivity.
Defined.

(** * Further properties *)

(** ** [GetHex] and [SetHex] are inverse of each other *)

Lemma mod256_div16 y : (y mod 256) / 16 = (y / 16) mod 16.
Proof.
  change 256 with (16 * 16). rewrite Z.rem_mul_r by lia.
  rewrite (Z.add_comm (y mod 16)), Z.mul_comm, Z.div_add_l by lia.
  rewrite (Z.div_small (y mod 16)) by (apply Z.mod_pos_bound; lia). lia.
Qed.

Lemma nibble_byte_at w j :
  0 <= j ->
  nibble (byte_at w j) 1 = nibble w (2 * j + 1) /\
  nibble (byte_at w j) 0 = nibble w (2 * j).
Proof.
  intros Hj. unfold nibble, byte_at.
  change 15 with (Z.ones 4). change 255 with (Z.ones 8).
  rewrite !Z.land_ones by lia. rewrite !Z.shiftr_div_pow2 by lia.
  replace (4 * (2 * j + 1)) with (8 * j + 4) by lia.
  replace (4 * (2 * j)) with (8 * j) by lia.
  rewrite Z.pow_add_r by lia.
  rewrite <- Z.div_div by (try apply Z.pow_pos_nonneg; lia).
  set (y := w / 2 ^ (8 * j)).
  change (2 ^ (4 * 1)) with 16. change (2 ^ (4 * 0)) with 1.
  change (2 ^ 8) with 256. change (2 ^ 4) with 16.
  rewrite Z.div_1_r. split.
  - rewrite mod256_div16. apply Z.mod_mod. lia.
  - apply Z.mod_mod_divide. exists 16. reflexivity.
Qed.

Lemma hex_fixed_word w :
  hex_fixed 8 w =
  hex_of_bytes [byte_at w 3; byte_at w 2; byte_at w 1; byte_at w 0].
Proof.
  change (hex_fixed 8 w) with
    [hex_char (nibble w (2 * 3 + 1)); hex_char (nibble w (2 * 3));
     hex_char (nibble w (2 * 2 + 1)); hex_char (nibble w (2 * 2));
     hex_char (nibble w (2 * 1 + 1)); hex_char (nibble w (2 * 1));
     hex_char (nibble w (2 * 0 + 1)); hex_char (nibble w (2 * 0))].
  destruct (nibble_byte_at w 3 ltac:(lia)) as [<- <-].
  destruct (nibble_byte_at w 2 ltac:(lia)) as [<- <-].
  destruct (nibble_byte_at w 1 ltac:(lia)) as [<- <-].
  destruct (nibble_byte_at w 0 ltac:(lia)) as [<- <-].
  reflexivity.
Qed.

Lemma hex_of_bytes_app a b : hex_of_bytes (a ++ b) = hex_of_bytes a ++ hex_of_bytes b.
Proof. unfold hex_of_bytes. apply flat_map_app. Qed.

(** The display of a [uint256] is the hexadecimal of its bytes, most
    significant first. *)
Lemma GetHex_bytes u :
  length u = 8%nat -> GetHex u = hex_of_bytes (be_bytes256 u).
Proof.
  intros H. eight_words u H.
  change (GetHex [w; w0; w1; w2; w3; w4; w5; w6]) with
    (hex_fixed 8 w6 ++ hex_fixed 8 w5 ++ hex_fixed 8 w4 ++ hex_fixed 8 w3 ++
     hex_fixed 8 w2 ++ hex_fixed 8 w1 ++ hex_fixed 8 w0 ++ hex_fixed 8 w).
  rewrite !hex_fixed_word, <- !hex_of_bytes_app. reflexivity.
Qed.

(** [SetHex] on the hexadecimal of 32 bytes packs them four by four, the
    first bytes into the most significant word. *)
Lemma SetHex_of_bytes
    b0 b1 b2 b3 b4 b5 b6 b7 b8 b9 b10 b11 b12 b13 b14 b15
    b16 b17 b18 b19 b20 b21 b22 b23 b24 b25 b26 b27 b28 b29 b30 b31 :
  Forall is_byte
    [b0; b1; b2; b3; b4; b5; b6; b7; b8; b9; b10; b11; b12; b13; b14; b15;
     b16; b17; b18; b19; b20; b21; b22; b23; b24; b25; b26; b27; b28; b29;
     b30; b31] ->
  SetHex (hex_of_bytes
    [b0; b1; b2; b3; b4; b5; b6; b7; b8; b9; b10; b11; b12; b13; b14; b15;
     b16; b17; b18; b19; b20; b21; b22; b23; b24; b25; b26; b27; b28; b29;
     b30; b31]) =
  [pack b28 b29 b30 b31; pack b24 b25 b26 b27; pack b20 b21 b22 b23;
   pack b16 b17 b18 b19; pack b12 b13 b14 b15; pack b8 b9 b10 b11;
   pack b4 b5 b6 b7; pack b0 b1 b2 b3].
Proof.
  intros Hd.
  repeat match goal with
         | H : Forall _ (_ :: _) |- _ => inversion H; subst; clear H
         end.
  unfold SetHex, SetHex_step, hex_of_bytes, hex_fixed, substr.
  rewrite (SetHex_shape (fun b k => hex_char (nibble b k))
                        (fun s => to_byte (strtol16 s))).
  cbv zeta. rewrite !hex_pair_of_byte by assumption.
  rewrite !pack_word by assumption. reflexivity.
Qed.

Lemma pack_bytes_of_word w :
  is_u32 w -> pack (byte_at w 3) (byte_at w 2) (byte_at w 1) (byte_at w 0) = w.
Proof.
  unfold is_u32, pack, byte_at. intros Hw.
  change 255 with (Z.ones 8). rewrite !Z.land_ones by lia.
  rewrite !Z.shiftr_div_pow2 by lia.
  change (2 ^ (8 * 3)) with 16777216. change (2 ^ (8 * 2)) with 65536.
  change (2 ^ (8 * 1)) with 256. change (2 ^ (8 * 0)) with 1.
  change (2 ^ 8) with 256. change (2 ^ 24) with 16777216.
  change (2 ^ 16) with 65536. change (2 ^ 32) with 4294967296 in Hw.
  Z.div_mod_to_equations. lia.
Qed.

Lemma byte_at_pack a b c d :
  is_byte a -> is_byte b -> is_byte c -> is_byte d ->
  byte_at (pack a b c d) 3 = a /\ byte_at (pack a b c d) 2 = b /\
  byte_at (pack a b c d) 1 = c /\ byte_at (pack a b c d) 0 = d.
Proof.
  unfold is_byte, pack, byte_at. intros Ha Hb Hc Hd.
  change 255 with (Z.ones 8). rewrite !Z.land_ones by lia.
  rewrite !Z.shiftr_div_pow2 by lia.
  change (2 ^ (8 * 3)) with 16777216. change (2 ^ (8 * 2)) with 65536.
  change (2 ^ (8 * 1)) with 256. change (2 ^ (8 * 0)) with 1.
  change (2 ^ 8) with 256. change (2 ^ 24) with 16777216.
  change (2 ^ 16) with 65536.
  repeat split; Z.div_mod_to_equations; lia.
Qed.

Lemma byte_at_is_byte w j : is_byte (byte_at w j).
Proof. apply byte_at_range. Qed.

(** X1. Reading back the display of a [uint256] gives the same [uint256]. *)
Theorem SetHex_GetHex (u : uint256) :
  wf256 u -> SetHex (GetHex u) = u.
Proof.
  intros [Hl Hu]. rewrite GetHex_bytes by assumption.
  eight_words u Hl.
  repeat match goal with
         | H : Forall _ (_ :: _) |- _ => inversion H; subst; clear H
         end.
  unfold be_bytes256. cbn [flat_map word_bytes app rev].
  rewrite SetHex_of_bytes by (repeat constructor; apply byte_at_is_byte).
  rewrite !pack_bytes_of_word by assumption. reflexivity.
Qed.

Lemma SetHex_GetHex_witness :
  SetHex (GetHex (hashMerkleRoot main_genesis)) = hashMerkleRoot main_genesis.
Proof.
  apply (SetHex_GetHex (hashMerkleRoot main_genesis)).
  apply wf256_dec_true; vm_compute; reflexivity.
Defined.

(** X2. The display of a hash is the hexadecimal of the double digest, byte
    by byte in the order of the digest: more generally, displaying what
    [SetHex] read from the hexadecimal of 32 bytes gives that hexadecimal
    back. *)
Theorem GetHex_Hash (sha256 : list Z -> list Z) (data : list Z) :
  length (sha256 (sha256 data)) = 32%nat ->
  Forall is_byte (sha256 (sha256 data)) ->
  GetHex (Hash sha256 data) = hex_of_bytes (sha256 (sha256 data)) /\
  be_bytes256 (Hash sha256 data) = sha256 (sha256 data).
Proof.
  unfold Hash. generalize (sha256 (sha256 data)). intros d Hl Hd.
  assert (E : be_bytes256 (SetHex (hex_of_bytes d)) = d).
  { bytes_32 d Hl. rewrite SetHex_of_bytes by assumption.
    repeat match goal with
           | H : Forall _ (_ :: _) |- _ => inversion H; subst; clear H
           end.
    unfold be_bytes256. cbn [flat_map word_bytes app rev].
    repeat match goal with
           | |- context [byte_at (pack ?a ?b ?c ?d) _] =>
               let H := fresh in
               destruct (byte_at_pack a b c d) as (H & ? & ? & ?);
               [assumption .. |]; rewrite H; clear H;
               repeat match goal with E : byte_at _ _ = _ |- _ => rewrite E; clear E end
           end.
    reflexivity. }
  split; [|exact E].
  rewrite GetHex_bytes by (apply SetHex_wf). rewrite E. reflexivity.
Qed.

Lemma GetHex_Hash_witness :
  GetHex (Hash SHA256.digest (Serialize bitcoin_genesis)) =
  str "6fe28c0ab6f1b372c1a6a246ae63f74f931e8365e15a089c68d6190000000000".
Proof.
  transitivity (hex_of_bytes bitcoin_genesis_digest); [|vm_compute; reflexivity].
  apply (GetHex_Hash SHA256.digest (Serialize bitcoin_genesis)).
  - vm_compute. reflexivity.
  - apply Forall_forall. intros x Hx.
    assert (B : forallb (fun b => (0 <=? b) && (b <? 256))
                  (SHA256.digest (SHA256.digest (Serialize bitcoin_genesis))) = true)
      by (vm_compute; reflexivity).
    rewrite forallb_forall in B. specialize (B x Hx). unfold is_byte. lia.
Defined.

(** ** The comparison operators of [uint256] *)

(** X3. On [uint256] values [operator<], [operator<=] and [operator==]
    decide the order and the equality of the 256-bit unsigned numbers; in
    particular [a < b] is the negation of [b <= a], and of two values one is
    [<=] the other. *)
Theorem uint256_order (a b : uint256) :
  wf256 a -> wf256 b ->
  (lt256 a b = true <-> value256 a < value256 b) /\
  (le256 a b = true <-> value256 a <= value256 b) /\
  (eq256 a b = true <-> value256 a = value256 b) /\
  lt256 a b = negb (le256 b a) /\
  (le256 a b = true \/ le256 b a = true) /\
  (le256 a b = true -> le256 b a = true -> a = b).
Proof.
  intros Wa Wb.
  pose proof (lt256_spec a b Wa Wb) as Hlt.
  pose proof (le256_spec a b Wa Wb) as Hle.
  pose proof (le256_spec b a Wb Wa) as Hge.
  assert (Heq : eq256 a b = true <-> value256 a = value256 b).
  { rewrite eq256_true. split; [intros ->; reflexivity|].
    destruct Wa as [La Ha], Wb as [Lb Hb].
    apply value256_inj; congruence. }
  repeat split.
  - rewrite Hlt. apply Z.ltb_lt.
  - rewrite Hlt. apply Z.ltb_lt.
  - rewrite Hle. apply Z.leb_le.
  - rewrite Hle. apply Z.leb_le.
  - apply Heq.
  - apply Heq.
  - rewrite Hlt, Hge. apply Z.ltb_antisym.
  - rewrite Hle, Hge.
    destruct (Z.leb_spec (value256 a) (value256 b)); [left; reflexivity|].
    right. apply Z.leb_le. lia.
  - rewrite Hle, Hge. intros H1 H2.
    apply Z.leb_le in H1, H2. apply eq256_true, Heq. lia.
Qed.

Lemma uint256_order_witness :
  lt256 main_target easy_target = true /\
  value256 main_target < value256 easy_target.
Proof.
  destruct (uint256_order main_target easy_target (SetHex_wf _) (SetHex_wf _))
    as (H & _).
  split; [vm_compute; reflexivity|].
  apply H. vm_compute. reflexivity.
Defined.

(** ** [Serialize] determines the header *)

Lemma app_inj_length (A : Type) (a a' b b' : list A) :
  length a = length a' -> a ++ b = a' ++ b' -> a = a' /\ b = b'.
Proof.
  revert a'. induction a as [|x a IH]; intros [|y a'] Hl H; try discriminate.
  - split; [reflexivity | exact H].
  - simpl in Hl, H. injection H as -> H.
    destruct (IH a' ltac:(lia) H) as [-> ->]. split; reflexivity.
Qed.

Lemma le_bytes_inj n : forall x y,
  0 <= x < 256 ^ Z.of_nat n -> 0 <= y < 256 ^ Z.of_nat n ->
  le_bytes n x = le_bytes n y -> x = y.
Proof.
  induction n as [|n IH]; intros x y Hx Hy H.
  - change (256 ^ Z.of_nat 0) with 1 in *. lia.
  - rewrite Nat2Z.inj_succ, Z.pow_succ_r in Hx, Hy by lia.
    cbn [le_bytes] in H. injection H as H0 H1.
    apply IH in H1.
    + rewrite (Z.div_mod x 256), (Z.div_mod y 256) by lia. congruence.
    + split; [apply Z.div_pos; lia | apply Z.div_lt_upper_bound; lia].
    + split; [apply Z.div_pos; lia | apply Z.div_lt_upper_bound; lia].
Qed.

Lemma firstn_length_app (A : Type) (a b : list A) : firstn (length a) (a ++ b) = a.
Proof.
  rewrite firstn_app, Nat.sub_diag, firstn_all, firstn_O. apply app_nil_r.
Qed.

Lemma skipn_length_app (A : Type) (a b : list A) : skipn (length a) (a ++ b) = b.
Proof.
  rewrite skipn_app, Nat.sub_diag, skipn_all. reflexivity.
Qed.

Lemma put_hash_length u : length (put_hash u) = 32%nat.
Proof. unfold put_hash. rewrite length_map. reflexivity. Qed.

Lemma put_u32_length x : length (put_u32 x) = 4%nat.
Proof. reflexivity. Qed.

Lemma put_u32_inj x y : is_u32 x -> is_u32 y -> put_u32 x = put_u32 y -> x = y.
Proof.
  intros Hx Hy. rewrite !put_u32_le. apply (le_bytes_inj 4); assumption.
Qed.

Lemma put_hash_inj a b : wf256 a -> wf256 b -> put_hash a = put_hash b -> a = b.
Proof.
  intros Wa Wb. rewrite !put_hash_le by assumption. intros H.
  destruct Wa as [La Ha], Wb as [Lb Hb].
  apply value256_inj; try assumption; [congruence|].
  apply (le_bytes_inj 32) in H; [exact H| |].
  - pose proof (value256_range a Ha) as R. rewrite La in R. exact R.
  - pose proof (value256_range b Hb) as R. rewrite Lb in R. exact R.
Qed.

(** X4. Two headers with the same serialization are the same header: the
    80 bytes determine every field. *)
Theorem Serialize_injective (h1 h2 : BlockHeader) :
  wfHeader h1 -> wfHeader h2 -> Serialize h1 = Serialize h2 -> h1 = h2.
Proof.
  intros (V1 & P1 & M1 & T1 & B1 & N1) (V2 & P2 & M2 & T2 & B2 & N2) H.
  unfold Serialize in H.
  apply app_inj_length in H; [|reflexivity]. destruct H as [Hv H].
  apply app_inj_length in H; [|rewrite !put_hash_length; reflexivity].
  destruct H as [Hp H].
  apply app_inj_length in H; [|rewrite !put_hash_length; reflexivity].
  destruct H as [Hm H].
  apply app_inj_length in H; [|reflexivity]. destruct H as [Ht H].
  apply app_inj_length in H; [|reflexivity]. destruct H as [Hb Hn].
  apply put_u32_inj in Hv, Ht, Hb, Hn; try assumption.
  apply put_hash_inj in Hp, Hm; try assumption.
  destruct h1, h2; simpl in *. congruence.
Qed.

Lemma Serialize_injective_witness :
  set_nonce_time main_genesis 0 1737933600 = main_genesis.
Proof.
  apply (Serialize_injective (set_nonce_time main_genesis 0 1737933600) main_genesis).
  - exact main_genesis_wf.
  - exact main_genesis_wf.
  - reflexivity.
Defined.

(** X5. A step of the search changes the serialized header in the time and
    nonce bytes only: the first 68 bytes and bytes 72 to 75 stay, the last
    four bytes are the new nonce; and while the nonce does not wrap the
    first 76 bytes stay. *)
Theorem next_header_changes_time_and_nonce_only (g : BlockHeader) :
  firstn 68 (Serialize (next_header g)) = firstn 68 (Serialize g) /\
  firstn 4 (skipn 72 (Serialize (next_header g))) = firstn 4 (skipn 72 (Serialize g)) /\
  skipn 76 (Serialize (next_header g)) = le_bytes 4 (nNonce (next_header g)) /\
  (wrap32 (nNonce g + 1) <> 0 ->
   firstn 76 (Serialize (next_header g)) = firstn 76 (Serialize g)).
Proof.
  assert (S : forall h,
    Serialize h =
    (put_u32 (nVersion h) ++ put_hash (hashPrevBlock h) ++ put_hash (hashMerkleRoot h))
    ++ put_u32 (nTime h) ++ put_u32 (nBits h) ++ put_u32 (nNonce h)).
  { intros h. unfold Serialize. rewrite <- !app_assoc. reflexivity. }
  assert (L : forall h, length (put_u32 (nVersion h) ++ put_hash (hashPrevBlock h)
                                ++ put_hash (hashMerkleRoot h)) = 68%nat).
  { intros h. rewrite !length_app, !put_hash_length. reflexivity. }
  assert (F68 : forall h, firstn 68 (Serialize h) =
     put_u32 (nVersion h) ++ put_hash (hashPrevBlock h) ++ put_hash (hashMerkleRoot h)).
  { intros h. rewrite S. rewrite <- (L h) at 1. apply firstn_length_app. }
  assert (S68 : forall h, skipn 68 (Serialize h) =
     put_u32 (nTime h) ++ put_u32 (nBits h) ++ put_u32 (nNonce h)).
  { intros h. rewrite S. rewrite <- (L h) at 1. apply skipn_length_app. }
  assert (K : forall h k, skipn (68 + k) (Serialize h) = skipn k (skipn 68 (Serialize h))).
  { intros h k. rewrite skipn_skipn. f_equal. lia. }
  assert (Same : nVersion (next_header g) = nVersion g /\
                 hashPrevBlock (next_header g) = hashPrevBlock g /\
                 hashMerkleRoot (next_header g) = hashMerkleRoot g /\
                 nBits (next_header g) = nBits g).
  { unfold next_header. destruct (_ =? 0); repeat split; reflexivity. }
  destruct Same as (Ev & Ep & Em & Eb).
  repeat split.
  - rewrite !F68, Ev, Ep, Em. reflexivity.
  - change 72%nat with (68 + 4)%nat. rewrite !K, !S68, Eb. reflexivity.
  - change 76%nat with (68 + 8)%nat. rewrite K, S68. apply put_u32_le.
  - intros Hw.
    assert (Et : nTime (next_header g) = nTime g).
    { unfold next_header. destruct (Z.eqb_spec (wrap32 (nNonce g + 1)) 0); [contradiction|].
      reflexivity. }
    rewrite <- (firstn_skipn 68 (Serialize (next_header g))).
    rewrite <- (firstn_skipn 68 (Serialize g)).
    rewrite !F68, !S68, Ev, Ep, Em, Et, Eb.
    set (A := put_u32 (nVersion g) ++ put_hash (hashPrevBlock g)
              ++ put_hash (hashMerkleRoot g)).
    assert (LA : length A = 68%nat) by apply L.
    rewrite !(firstn_app 76 A), LA. reflexivity.
Qed.

(** ** The searches of the node miners find the first nonce *)

Lemma kernel_loop_finds GetHash hashTarget fuel : forall genesis k n,
  0 <= k <= n -> n < 2 ^ 32 ->
  n - k < Z.of_nat fuel ->
  GetHash (with_nonce genesis n) <= hashTarget ->
  (forall i, k <= i < n -> hashTarget < GetHash (with_nonce genesis i)) ->
  kernel_loop GetHash fuel genesis hashTarget k = Some (n, with_nonce genesis n).
Proof.
  induction fuel as [|fuel IH]; intros genesis k n Hk Hn Hf Hhit Hmiss.
  - simpl in Hf. lia.
  - cbn [kernel_loop]. destruct (Z.eq_dec k n) as [->|Hne].
    + apply Z.leb_le in Hhit. rewrite Hhit. reflexivity.
    + pose proof (Hmiss k ltac:(lia)) as Hm. apply Z.leb_gt in Hm. rewrite Hm.
      assert (Hw : wrap32 (k + 1) = k + 1) by (apply Z.mod_small; lia).
      rewrite Hw.
      rewrite (IH (with_nonce genesis k) (k + 1) n); rewrite ?with_nonce_twice;
        try lia; try assumption; [reflexivity|].
      intros i Hi. apply Hmiss. lia.
Qed.

(** X6. When some 32-bit nonce gives a digest at most the clamped target,
    [MineCustomCoinGenesisBlock] returns the least such nonce, and leaves it
    in the block, once it is run for more iterations than that nonce. *)
Theorem MineCustomCoinGenesisBlock_least_nonce (SetCompact : Z -> Z)
    (GetHash : CBlock -> Z) (genesis : CBlock) (powLimit n : Z) (fuel : nat) :
  let target := Z.min (SetCompact (blk_nBits genesis)) powLimit in
  0 <= n < 2 ^ 32 ->
  GetHash (with_nonce genesis n) <= target ->
  (forall i, 0 <= i < n -> target < GetHash (with_nonce genesis i)) ->
  n < Z.of_nat fuel ->
  MineCustomCoinGenesisBlock SetCompact GetHash fuel genesis powLimit
    = Some (n, with_nonce genesis n).
Proof.
  intros target Hn Hhit Hmiss Hf.
  unfold MineCustomCoinGenesisBlock. rewrite kernel_target_min. fold target.
  apply kernel_loop_finds; try assumption; lia.
Qed.

Lemma MineCustomCoinGenesisBlock_least_nonce_witness :
  MineCustomCoinGenesisBlock DecodeCompact sample_GetHash 3 sample_block (2 ^ 256 - 1)
    = Some (2, with_nonce sample_block 2).
Proof.
  apply (MineCustomCoinGenesisBlock_least_nonce DecodeCompact sample_GetHash
           sample_block (2 ^ 256 - 1) 2 3).
  - lia.
  - vm_compute. discriminate.
  - intros i Hi. assert (i = 0 \/ i = 1) as [-> | ->] by lia; vm_compute; reflexivity.
  - lia.
Defined.

Section CPUMinerSearch.

Variable GetHash : CBlock -> Z.

Lemma MineWithSIMD_loop_spec fuel : forall block target nonce end_nonce,
  0 <= nonce -> end_nonce < 2 ^ 32 ->
  Z.max 0 (end_nonce - nonce) < Z.of_nat fuel ->
  (exists n,
     nonce <= n < end_nonce /\
     GetHash (with_nonce block n) <= target /\
     (forall i, nonce <= i < n -> target < GetHash (with_nonce block i)) /\
     MineWithSIMD_loop GetHash fuel block target nonce end_nonce
       = Some (Some n, with_nonce block n)) \/
  ((forall i, nonce <= i < end_nonce -> target < GetHash (with_nonce block i)) /\
   exists block',
     MineWithSIMD_loop GetHash fuel block target nonce end_nonce = Some (None, block') /\
     (end_nonce <= nonce -> block' = block) /\
     (nonce < end_nonce -> block' = with_nonce block (end_nonce - 1))).
Proof.
  induction fuel as [|fuel IH]; intros block target nonce end_nonce Hn He Hf.
  - simpl in Hf. lia.
  - cbn [MineWithSIMD_loop].
    destruct (Z.ltb_spec nonce end_nonce) as [Hlt|Hge].
    + destruct (Z.leb_spec (GetHash (with_nonce block nonce)) target) as [Hhit|Hmiss].
      * left. exists nonce. split; [lia|]. split; [assumption|].
        split; [intros i Hi; lia | reflexivity].
      * assert (Hw : wrap32 (nonce + 1) = nonce + 1) by (apply Z.mod_small; lia).
        rewrite Hw.
        destruct (IH (with_nonce block nonce) target (nonce + 1) end_nonce)
          as [(n & Hr & Hhit & Hm & Hrun) | (Hm & block' & Hrun & Hb1 & Hb2)];
          try lia.
        -- left. exists n. rewrite with_nonce_twice in *.
           split; [lia|]. split; [assumption|]. split; [|assumption].
           intros i Hi. destruct (Z.eq_dec i nonce) as [->|]; [assumption|].
           specialize (Hm i ltac:(lia)). rewrite with_nonce_twice in Hm. exact Hm.
        -- right. split.
           ++ intros i Hi. destruct (Z.eq_dec i nonce) as [->|]; [assumption|].
              specialize (Hm i ltac:(lia)). rewrite with_nonce_twice in Hm. exact Hm.
           ++ exists block'. split; [exact Hrun|]. split; [lia|]. intros _.
              destruct (Z.eq_dec (nonce + 1) end_nonce) as [E|E].
              ** rewrite Hb1 by lia. f_equal. lia.
              ** rewrite Hb2 by lia. apply with_nonce_twice.
    + right. split; [intros i Hi; lia|].
      exists block. split; [reflexivity|]. split; [reflexivity|lia].
Qed.

End CPUMinerSearch.

(** X7. [CPUMiner::MineWithSIMD] on the range from [start_nonce] to
    [end_nonce] (excluded) always returns: either [true] with the least
    nonce of the range whose digest is at most the decoded target, left in
    the block, or [false] when no nonce of the range has such a digest – at
    once and with the block untouched when the range is empty. *)
Theorem MineWithSIMD_first_in_range (SetCompact : Z -> Z) (GetHash : CBlock -> Z)
    (block : CBlock) (start_nonce end_nonce : Z) (fuel : nat) :
  let target := SetCompact (blk_nBits block) in
  0 <= start_nonce < 2 ^ 32 -> 0 <= end_nonce < 2 ^ 32 ->
  Z.max 0 (end_nonce - start_nonce) < Z.of_nat fuel ->
  (exists n,
     start_nonce <= n < end_nonce /\
     GetHash (with_nonce block n) <= target /\
     (forall i, start_nonce <= i < n -> target < GetHash (with_nonce block i)) /\
     MineWithSIMD SetCompact GetHash fuel block start_nonce end_nonce
       = Some (Some n, with_nonce block n)) \/
  ((forall i, start_nonce <= i < end_nonce -> target < GetHash (with_nonce block i)) /\
   exists block',
     MineWithSIMD SetCompact GetHash fuel block start_nonce end_nonce
       = Some (None, block') /\
     (end_nonce <= start_nonce -> block' = block)).
Proof.
  intros target Hs He Hf. unfold MineWithSIMD. fold target.
  destruct (MineWithSIMD_loop_spec GetHash fuel block target start_nonce end_nonce)
    as [H | (Hm & block' & Hrun & Hb & _)]; try lia.
  - left. exact H.
  - right. split; [exact Hm|]. exists block'. split; assumption.
Qed.

Lemma MineWithSIMD_first_in_range_witness :
  (exists n,
     0 <= n < 10 /\
     sample_GetHash (with_nonce sample_block n) <= DecodeCompact (blk_nBits sample_block) /\
     (forall i, 0 <= i < n ->
        DecodeCompact (blk_nBits sample_block) < sample_GetHash (with_nonce sample_block i)) /\
     MineWithSIMD DecodeCompact sample_GetHash 11 sample_block 0 10
       = Some (Some n, with_nonce sample_block n)) \/
  ((forall i, 0 <= i < 10 ->
      DecodeCompact (blk_nBits sample_block) < sample_GetHash (with_nonce sample_block i)) /\
   exists block',
     MineWithSIMD DecodeCompact sample_GetHash 11 sample_block 0 10 = Some (None, block') /\
     (10 <= 0 -> block' = sample_block)).
Proof.
  apply (MineWithSIMD_first_in_range DecodeCompact sample_GetHash sample_block 0 10 11);
    lia.
Defined.

(** ** What a call of [MineBlock] does to the miner *)

Section MineBlockEffects.

Context {CScript double : Type}.
Variable GetHash : CBlock -> Z.

Lemma iter_add_hash_frame k (m : Miner CScript double) :
  let m' := Nat.iter k (add_hash _ _) m in
  config_ m' = config_ m /\ mining_threads_ m' = mining_threads_ m /\
  stop_mining_ m' = stop_mining_ m /\ current_nonce_ m' = current_nonce_ m /\
  blocks_found _ (stats_ m') = blocks_found _ (stats_ m) /\
  hash_rate _ (stats_ m') = hash_rate _ (stats_ m) /\
  start_time _ (stats_ m') = start_time _ (stats_ m) /\
  is_mining (stats_ m') = is_mining (stats_ m).
Proof.
  induction k as [|k IH]; cbn zeta.
  - repeat split; reflexivity.
  - rewrite Nat.iter_succ. cbn zeta in IH.
    destruct IH as (H1 & H2 & H3 & H4 & H5 & H6 & H7 & H8).
    unfold add_hash at 1 3 5 7 9 11 13 15. cbn [config_ mining_threads_ stop_mining_
      current_nonce_ stats_ blocks_found hash_rate start_time is_mining].
    repeat split; assumption.
Qed.

Lemma iter_add_hash_count k (m : Miner CScript double) :
  0 <= hashes_computed _ (stats_ m) < 2 ^ 64 ->
  hashes_computed _ (stats_ (Nat.iter k (add_hash _ _) m))
  = (hashes_computed _ (stats_ m) + Z.of_nat k) mod 2 ^ 64.
Proof.
  intros Hh. induction k as [|k IH].
  - cbn [Nat.iter nat_rect]. rewrite Z.add_0_r, Z.mod_small; [reflexivity | exact Hh].
  - rewrite Nat.iter_succ. unfold add_hash at 1. cbn [stats_ hashes_computed].
    rewrite IH. unfold wrap64. rewrite Z.add_mod_idemp_l by lia.
    f_equal. lia.
Qed.

Lemma MineBlock_loop_spec fuel :
  forall block target nonce tested (m : Miner CScript double) res tested' m',
  0 <= nonce ->
  MineBlock_loop GetHash fuel block target nonce tested m = Some (res, tested', m') ->
  exists k : nat,
    m' = Nat.iter k (add_hash _ _) m /\
    (forall i, nonce <= i < nonce + Z.of_nat k ->
               target < GetHash (with_nonce block i)) /\
    match res with
    | Some n => n = nonce + Z.of_nat k /\
                tested' = tested ++ upfrom nonce 1 (S k) /\
                GetHash (with_nonce block n) <= target
    | None => tested' = tested ++ upfrom nonce 1 k
    end.
Proof.
  induction fuel as [|fuel IH]; intros block target nonce tested m res tested' m' Hn H.
  - discriminate.
  - cbn [MineBlock_loop] in H.
    destruct ((nonce <? wrap32 (current_nonce_ m + 1000)) && negb (stop_mining_ m)) eqn:Ec.
    + apply andb_true_iff in Ec. destruct Ec as [Ec _]. apply Z.ltb_lt in Ec.
      assert (Hb : wrap32 (current_nonce_ m + 1000) < 2 ^ 32)
        by (apply Z.mod_pos_bound; reflexivity).
      destruct (Z.leb_spec (GetHash (with_nonce block nonce)) target) as [Hhit|Hmiss].
      * inversion H; subst. exists 0%nat. split; [reflexivity|].
        split; [intros i Hi; lia|].
        cbn [Z.of_nat]. rewrite Z.add_0_r.
        split; [reflexivity|]. split; [reflexivity | assumption].
      * assert (Hw : wrap32 (nonce + 1) = nonce + 1) by (apply Z.mod_small; lia).
        rewrite Hw in H. apply IH in H; [|lia].
        destruct H as (k & Hm & Hmi & Hres).
        exists (S k). split; [rewrite Nat.iter_succ_r; exact Hm|]. split.
        -- intros i Hi. destruct (Z.eq_dec i nonce) as [->|]; [assumption|].
           specialize (Hmi i ltac:(lia)). rewrite with_nonce_twice in Hmi. exact Hmi.
        -- destruct res as [n|].
           ++ destruct Hres as (-> & -> & Hh). rewrite with_nonce_twice in Hh.
              split; [lia|]. split; [|exact Hh].
              rewrite <- app_assoc. reflexivity.
           ++ rewrite Hres, <- app_assoc. reflexivity.
    + inversion H; subst. exists 0%nat. split; [reflexivity|].
      split; [intros i Hi; lia|]. cbn [upfrom]. rewrite app_nil_r. reflexivity.
Qed.

End MineBlockEffects.

(** X8. Whatever a call of [MineBlock] returns, it has hashed consecutive
    nonces from the value [c] it read in the shared counter, every one of
    them a miss but the returned nonce; it has advanced the counter by 1000
    (modulo 2^32) and [hashes_computed] by the number of misses (the hit is
    not counted), and it has changed nothing else of the miner. *)
Theorem MineBlock_effects (CScript double : Type) (SetCompact : Z -> Z)
    (GetHash : CBlock -> Z) (fuel : nat) (block : CBlock)
    (m m' : Miner CScript double) (res : option Z) (tested : list Z) :
  let c := current_nonce_ m in
  let target := SetCompact (blk_nBits block) in
  0 <= c < 2 ^ 32 ->
  0 <= hashes_computed _ (stats_ m) < 2 ^ 64 ->
  MineBlock SetCompact GetHash fuel block m = Some (res, tested, m') ->
  exists misses : nat,
    tested = upfrom c 1 (misses + match res with Some _ => 1 | None => 0 end) /\
    (forall i, c <= i < c + Z.of_nat misses -> target < GetHash (with_nonce block i)) /\
    (forall n, res = Some n ->
       n = c + Z.of_nat misses /\ GetHash (with_nonce block n) <= target) /\
    hashes_computed _ (stats_ m')
      = (hashes_computed _ (stats_ m) + Z.of_nat misses) mod 2 ^ 64 /\
    current_nonce_ m' = (c + 1000) mod 2 ^ 32 /\
    config_ m' = config_ m /\ mining_threads_ m' = mining_threads_ m /\
    stop_mining_ m' = stop_mining_ m /\
    blocks_found _ (stats_ m') = blocks_found _ (stats_ m) /\
    start_time _ (stats_ m') = start_time _ (stats_ m) /\
    is_mining (stats_ m') = is_mining (stats_ m).
Proof.
  intros c target Hc Hh H. unfold MineBlock, fetch_add in H. fold c target in H.
  apply MineBlock_loop_spec in H; [|lia].
  destruct H as (k & -> & Hmiss & Hres).
  set (m0 := mkMiner (config_ m) (stats_ m) (mining_threads_ m) (stop_mining_ m)
                     (wrap32 (c + 1000))) in *.
  destruct (iter_add_hash_frame k m0) as (F1 & F2 & F3 & F4 & F5 & _ & F7 & F8).
  pose proof (iter_add_hash_count k m0 Hh) as Hcount.
  exists k. split; [|split; [exact Hmiss|split]].
  - destruct res as [n|].
    + destruct Hres as (_ & -> & _). cbn [app]. f_equal. lia.
    + rewrite Hres. cbn [app]. f_equal. lia.
  - intros n ->. destruct Hres as (-> & _ & Hhit). split; [reflexivity | exact Hhit].
  - repeat split; assumption.
Qed.

Lemma MineBlock_effects_witness :
  exists misses : nat,
    [0] = upfrom 0 1 (misses + 1) /\
    0 = (0 + Z.of_nat misses) mod 2 ^ 64.
Proof.
  destruct (MineBlock_effects Script Z DecodeCompact (fun _ => 2 ^ 240) 1
              (block_template 0) (new_miner 0)
              (mkMiner default_config (mkStats 0 0 0 0 false) [] false 1000)
              (Some 0) [0]) as (k & Ht & _ & _ & Hh & _).
  - vm_compute. split; [discriminate | reflexivity].
  - vm_compute. split; [discriminate | reflexivity].
  - vm_compute. reflexivity.
  - exists k. split; [exact Ht | exact Hh].
Defined.



(** ** Starting and stopping the miner *)

(** X10. [StartMining] and [StopMining] alternate between two states.  A
    second [StartMining] right after any [StartMining] fails and changes
    nothing; a second [StopMining] after any [StopMining] changes nothing;
    after [StopMining] a [StartMining] always succeeds, with the stop flag
    down again, the new threads as the only threads, and the counters
    ([hashes_computed], [blocks_found], [current_nonce_]) not reset. *)
Theorem StartMining_StopMining_cycle (CScript double : Type)
    (c1 c2 : MiningConfig CScript) (t1 t2 : Z)
    (h h' b b' n n' : Z) (r r' : double) (m : Miner CScript double) :
  let started := snd (StartMining c1 t1 m) in
  let stopped := StopMining h b r n m in
  StartMining c2 t2 started = (false, started) /\
  StopMining h' b' r' n' stopped = stopped /\
  is_mining (stats_ stopped) = false /\
  (is_mining (stats_ m) = true ->
   StartMining c2 t2 stopped =
     (true, mkMiner c2 (mkStats h b r t2 true)
                    (upfrom 0 1 (Z.to_nat (threads c2))) false n)).
Proof.
  cbn zeta. unfold StartMining, StopMining.
  destruct (is_mining (stats_ m)) eqn:E; cbn [negb snd stats_ is_mining].
  - rewrite E. cbn [negb stats_ is_mining hashes_computed blocks_found hash_rate
                    mining_threads_ current_nonce_ app].
    repeat split; reflexivity.
  - rewrite E. cbn [negb]. repeat split; try reflexivity; try assumption.
    discriminate.
Qed.


Lemma MineBlock_loop_frame (CScript double : Type) (GetHash : CBlock -> Z) fuel :
  forall block target nonce tested (m m' : Miner CScript double) res tested',
  MineBlock_loop GetHash fuel block target nonce tested m = Some (res, tested', m') ->
  stop_mining_ m' = stop_mining_ m /\
  is_mining (stats_ m') = is_mining (stats_ m) /\
  mining_threads_ m' = mining_threads_ m.
Proof.
  induction fuel as [|fuel IH]; intros block target nonce tested m m' res tested' H.
  - discriminate.
  - cbn [MineBlock_loop] in H.
    destruct ((nonce <? wrap32 (current_nonce_ m + 1000)) && negb (stop_mining_ m)).
    + destruct (GetHash (with_nonce block nonce) <=? target).
      * inversion H; subst. repeat split; reflexivity.
      * apply IH in H. exact H.
    + inversion H; subst. repeat split; reflexivity.
Qed.

(** X11. The constructor, [StartMining], [StopMining] and [MineBlock] keep
    the miner consistent: while [is_mining] is set the stop flag is down,
    and a miner that is not mining holds no thread. *)
Theorem miner_consistent_kept (CScript double : Type) :
  (forall now, miner_consistent (new_miner now)) /\
  (forall (config : MiningConfig CScript) now (m : Miner CScript double),
     miner_consistent m -> miner_consistent (snd (StartMining config now m))) /\
  (forall h b (r : double) n (m : Miner CScript double),
     miner_consistent m -> miner_consistent (StopMining h b r n m)) /\
  (forall SetCompact GetHash fuel block (m m' : Miner CScript double) res tested,
     miner_consistent m ->
     MineBlock SetCompact GetHash fuel block m = Some (res, tested, m') ->
     miner_consistent m').
Proof.
  unfold miner_consistent. split; [|split; [|split]].
  - intros now. split; [discriminate | reflexivity].
  - intros config now m [H1 H2]. unfold StartMining.
    destruct (is_mining (stats_ m)) eqn:E; cbn [snd].
    + rewrite E. split; [exact H1 | exact H2].
    + split; [reflexivity | cbn [stats_ is_mining]; discriminate].
  - intros h b r n m [H1 H2]. unfold StopMining.
    destruct (is_mining (stats_ m)) eqn:E; cbn [negb].
    + split; [cbn [stats_ is_mining]; discriminate | reflexivity].
    + rewrite E. split; [exact H1 | exact H2].
  - intros SetCompact GetHash fuel block m m' res tested [H1 H2] H.
    unfold MineBlock, fetch_add in H.
    apply MineBlock_loop_frame in H. cbn [stop_mining_ stats_ mining_threads_] in H.
    destruct H as (-> & -> & ->). split; [exact H1 | exact H2].
Qed.

(** ** [SetupMiner] and [main] of spoofcoin-miner.cpp *)

(** X12. [SetupMiner] succeeds exactly when [-address] is set to a non-empty
    string and [-threads], when set, is positive once converted to [int];
    otherwise the script of the configuration stays empty.  Two values of
    [-threads] that differ by 2^32 give the same result. *)
Theorem SetupMiner_succeeds_iff (hw : Z) (args : Args) :
  (fst (SetupMiner hw args) = true <->
   (exists address, arg_address args = Some address /\ address <> []) /\
   (forall v, arg_threads args = Some v -> 0 < to_int v)) /\
  (fst (SetupMiner hw args) = false ->
   mining_address (snd (SetupMiner hw args)) = []) /\
  (forall v,
     SetupMiner hw (mkArgs (Some (v + 2 ^ 32)) (arg_address args))
     = SetupMiner hw (mkArgs (Some v) (arg_address args))).
Proof.
  split; [|split].
  - unfold SetupMiner.
    destruct (arg_threads args) as [v|]; cbn [with_threads threads].
    + destruct (Z.leb_spec (to_int v) 0) as [Hv|Hv].
      * cbn [fst]. split; [discriminate|]. intros [_ H].
        specialize (H v eq_refl). lia.
      * destruct (arg_address args) as [[|c a]|]; cbn [fst].
        -- split; [discriminate|]. intros [(a & Ha & Hne) _].
           injection Ha as <-. contradiction.
        -- split; [|reflexivity]. intros _. split.
           ++ exists (c :: a). split; [reflexivity | discriminate].
           ++ intros v' Hv'. injection Hv' as <-. exact Hv.
        -- split; [discriminate|]. intros [(a & Ha & _) _]. discriminate.
    + destruct (arg_address args) as [[|c a]|]; cbn [fst].
      * split; [discriminate|]. intros [(a & Ha & Hne) _].
        injection Ha as <-. contradiction.
      * split; [|reflexivity]. intros _. split.
        -- exists (c :: a). split; [reflexivity | discriminate].
        -- intros v Hv. discriminate.
      * split; [discriminate|]. intros [(a & Ha & _) _]. discriminate.
  - unfold SetupMiner.
    destruct (arg_threads args) as [v|]; cbn [with_threads threads].
    + destruct (to_int v <=? 0); [reflexivity|].
      destruct (arg_address args) as [[|c a]|]; cbn [fst snd]; try reflexivity.
      discriminate.
    + destruct (arg_address args) as [[|c a]|]; cbn [fst snd]; try reflexivity.
      discriminate.
  - intros v. unfold SetupMiner. cbn [arg_threads arg_address].
    assert (E : to_int (v + 2 ^ 32) = to_int v).
    { unfold to_int. replace (v + 2 ^ 32) with (v + 1 * 2 ^ 32) by lia.
      rewrite Z.mod_add by lia. reflexivity. }
    rewrite E. reflexivity.
Qed.

(** X13. A configuration that [SetupMiner] accepts starts at least one
    thread: with [hardware_concurrency] below 2^31, its thread count is
    positive (the value of [-threads], else the hardware concurrency, else
    1), its script is the reward script of the address, and [StartMining] on
    a new miner succeeds and starts the threads numbered from 0 to
    [threads - 1]. *)
Theorem SetupMiner_then_StartMining (hw created now : Z) (args : Args)
    (config : MiningConfig Script) :
  0 <= hw < 2 ^ 31 ->
  SetupMiner hw args = (true, config) ->
  0 < threads config /\
  threads config =
    match arg_threads args with
    | Some v => to_int v
    | None => if hw =? 0 then 1 else hw
    end /\
  (exists address, arg_address args = Some address /\
                   mining_address config = reward_script address) /\
  StartMining config now (new_miner created) =
    (true, mkMiner config (mkStats 0 0 0 now true)
                   (upfrom 0 1 (Z.to_nat (threads config))) false 0) /\
  length (upfrom 0 1 (Z.to_nat (threads config))) = Z.to_nat (threads config).
Proof.
  intros Hhw H.
  assert (Hi : to_int hw = hw).
  { unfold to_int. rewrite Z.mod_small by lia.
    destruct (Z.ltb_spec hw (2 ^ 31)); lia. }
  assert (Hlen : forall n a, length (upfrom a 1 n) = n).
  { induction n as [|n IH]; intros a; cbn [upfrom length]; [reflexivity|].
    rewrite IH. reflexivity. }
  unfold SetupMiner, OptimizeMiningConfig in H. rewrite Hi in H.
  destruct (arg_threads args) as [v|]; cbn [with_threads threads] in H.
  - destruct (Z.leb_spec (to_int v) 0) as [Hv|Hv]; [discriminate|].
    destruct (arg_address args) as [[|c a]|]; try discriminate.
    injection H as <-. cbn [with_address with_threads threads mining_address].
    repeat split; try assumption; try apply Hlen.
    exists (c :: a). split; reflexivity.
  - destruct (arg_address args) as [[|c a]|]; try discriminate.
    injection H as <-. cbn [with_address threads mining_address].
    repeat split; try apply Hlen.
    + destruct (Z.eqb_spec hw 0); lia.
    + exists (c :: a). split; reflexivity.
Qed.

Lemma SetupMiner_then_StartMining_witness :
  0 < 4 /\
  StartMining
    (with_address (with_threads (OptimizeMiningConfig 8) 4)
                  (reward_script (str "sc1qexample")))
    200 (new_miner 100) =
  (true,
   mkMiner (with_address (with_threads (OptimizeMiningConfig 8) 4)
                         (reward_script (str "sc1qexample")))
           (mkStats 0 0 0 200 true) [0; 1; 2; 3] false 0).
Proof.
  destruct (SetupMiner_then_StartMining 8 100 200
              (mkArgs (Some 4) (Some (str "sc1qexample")))
              (with_address (with_threads (OptimizeMiningConfig 8) 4)
                            (reward_script (str "sc1qexample"))))
    as (Ht & _ & _ & Hs & _).
  - lia.
  - reflexivity.
  - split; [exact Ht | exact Hs].
Defined.

Lemma cstring_eqb_true a b : cstring_eqb a b = true <-> a = b.
Proof.
  unfold cstring_eqb. destruct (list_eq_dec ascii_dec a b); split; congruence.
Qed.

(** X14. What [main] does before it waits.  It returns 0 without mining
    exactly when the parameters parse and either help is asked for or the
    chain is [spoofcoin] (the default) and [-benchmark] is set; it starts
    mining exactly when the parameters parse, no help is asked for, the
    chain is [spoofcoin], [-benchmark] is not set and [SetupMiner] accepts
    the rest, and then the miner is the one [StartMining] makes of a new
    miner; in every other case it returns 1.  So [-help] wins over a wrong
    chain, and the benchmark needs no address. *)
Theorem miner_main_outcome (hw created now : Z) (cl : CmdLine) :
  let chain_ok := cl_chain cl = None \/ cl_chain cl = Some (str "spoofcoin") in
  let run := miner_main hw created now cl in
  (run = Exit 0 <->
   cl_parse_ok cl = true /\
   (cl_help cl = true \/ (chain_ok /\ cl_benchmark cl = true))) /\
  (forall m, run = Mining m <->
   cl_parse_ok cl = true /\ cl_help cl = false /\ chain_ok /\
   cl_benchmark cl = false /\
   exists config,
     SetupMiner hw (cl_args cl) = (true, config) /\
     m = mkMiner config (mkStats 0 0 0 now true)
                 (upfrom 0 1 (Z.to_nat (threads config))) false 0) /\
  (run = Exit 0 \/ run = Exit 1 \/ exists m, run = Mining m).
Proof.
  cbn zeta. unfold miner_main, RunBenchmark.
  destruct (cl_parse_ok cl); cbn [negb].
  2:{ split; [|split].
      - split; [discriminate | intros [H _]; discriminate].
      - intros m. split; [discriminate | intros [H _]; discriminate].
      - right. left. reflexivity. }
  destruct (cl_help cl).
  { split; [|split].
    - split; [intros _; split; [reflexivity | left; reflexivity] | reflexivity].
    - intros m. split; [discriminate | intros (_ & H & _); discriminate].
    - left. reflexivity. }
  set (chain := match cl_chain cl with Some c => c | None => str "spoofcoin" end).
  assert (Hc : cstring_eqb chain (str "spoofcoin") = true <->
               (cl_chain cl = None \/ cl_chain cl = Some (str "spoofcoin"))).
  { rewrite cstring_eqb_true. unfold chain.
    destruct (cl_chain cl) as [c|].
    - split; [intros ->; right; reflexivity | intros [H|H]; congruence].
    - split; [left; reflexivity | reflexivity]. }
  destruct (cstring_eqb chain (str "spoofcoin")); cbn [negb].
  2:{ assert (Hn : ~ (cl_chain cl = None \/ cl_chain cl = Some (str "spoofcoin")))
        by (intros H; apply Hc in H; discriminate).
      split; [|split].
      - split; [discriminate|]. intros [_ [H|[H _]]]; [discriminate | contradiction].
      - intros m. split; [discriminate | intros (_ & _ & H & _); contradiction].
      - right. left. reflexivity. }
  assert (Hok : cl_chain cl = None \/ cl_chain cl = Some (str "spoofcoin"))
    by (apply Hc; reflexivity).
  destruct (cl_benchmark cl).
  { change (fst (StartMining (benchmark_config hw) now (new_miner created))) with true.
    cbv iota. split; [|split].
    - split; [intros _; split; [reflexivity | right; split; [exact Hok | reflexivity]]
             | reflexivity].
    - intros m. split; [discriminate | intros (_ & _ & _ & H & _); discriminate].
    - left. reflexivity. }
  destruct (SetupMiner hw (cl_args cl)) as [[|] config].
  - change (StartMining config now (new_miner created)) with
      (true, mkMiner config (mkStats 0 0 0 now true)
                     (upfrom 0 1 (Z.to_nat (threads config))) false 0).
    cbv iota. split; [|split].
    + split; [discriminate|]. intros [_ [H|[_ H]]]; discriminate.
    + intros m. split.
      * intros H. injection H as <-. repeat split; try assumption.
        exists config. split; reflexivity.
      * intros (_ & _ & _ & _ & c & Hc' & ->). injection Hc' as <-. reflexivity.
    + right. right. eexists. reflexivity.
  - split; [|split].
    + split; [discriminate|]. intros [_ [H|[_ H]]]; discriminate.
    + intros m. split; [discriminate|].
      intros (_ & _ & _ & _ & c & Hc' & _). discriminate.
    + right. left. reflexivity.
Qed.

(** X15. [GetOptimalThreadCount] is positive for every reading of the
    hardware concurrency, and for readings below 2^31 it is the thread count
    [OptimizeMiningConfig] chooses; for larger readings [OptimizeMiningConfig]
    keeps the negative [int] the reading converts to. *)
Theorem thread_count_defaults (hw : Z) :
  0 < GetOptimalThreadCount hw /\
  (0 <= hw < 2 ^ 31 ->
   threads (OptimizeMiningConfig hw) = GetOptimalThreadCount hw) /\
  (2 ^ 31 <= hw < 2 ^ 32 ->
   threads (OptimizeMiningConfig hw) = hw - 2 ^ 32 /\
   GetOptimalThreadCount hw = 1).
Proof.
  unfold GetOptimalThreadCount, OptimizeMiningConfig. cbn [threads].
  split; [|split].
  - destruct (Z.ltb_spec 0 (to_int hw)); lia.
  - intros H. assert (Hi : to_int hw = hw).
    { unfold to_int. rewrite Z.mod_small by lia.
      destruct (Z.ltb_spec hw (2 ^ 31)); lia. }
    rewrite Hi. destruct (Z.eqb_spec hw 0), (Z.ltb_spec 0 hw); lia.
  - intros H. assert (Hi : to_int hw = hw - 2 ^ 32).
    { unfold to_int. rewrite Z.mod_small by lia.
      destruct (Z.ltb_spec hw (2 ^ 31)); lia. }
    rewrite Hi. destruct (Z.eqb_spec (hw - 2 ^ 32) 0), (Z.ltb_spec 0 (hw - 2 ^ 32)); lia.
Qed.

(** ** The search space of the stand-alone miner *)

Lemma header_at_mod g k :
  0 <= k -> header_at g k = header_at g (k mod 2 ^ 64).
Proof.
  intros Hk. unfold header_at. f_equal.
  - symmetry. apply Z.mod_mod_divide. exists (2 ^ 32). reflexivity.
  - pose proof (Z.div_mod k (2 ^ 64) ltac:(lia)) as E.
    set (q := k / 2 ^ 64) in *. set (r := k mod 2 ^ 64) in *.
    assert (D : k / 2 ^ 32 = q * 2 ^ 32 + r / 2 ^ 32).
    { rewrite E. replace (2 ^ 64 * q + r) with (q * 2 ^ 32 * 2 ^ 32 + r) by lia.
      apply Z.div_add_l. lia. }
    rewrite D.
    replace (nTime g + (q * 2 ^ 32 + r / 2 ^ 32))
      with (nTime g + r / 2 ^ 32 + q * 2 ^ 32) by lia.
    apply Z.mod_add. lia.
Qed.

(** X16. The stand-alone search runs over 2^64 headers, the nonces of 2^32
    successive times, and then repeats: when none of them meets the target,
    the loop of [main] never stops, however long it runs. *)
Theorem mine_loop_never_stops (sha256 : list Z -> list Z) (target : uint256)
    (g : BlockHeader) :
  nNonce g = 0 -> is_u32 (nTime g) ->
  (forall k, 0 <= k -> header_at g (k + 2 ^ 64) = header_at g k) /\
  ((forall k, 0 <= k < 2 ^ 64 -> attempt sha256 target g k = false) ->
   forall fuel, mine_loop sha256 target fuel g 0 = None).
Proof.
  intros Hn Ht. split.
  - intros k Hk. rewrite (header_at_mod g (k + 2 ^ 64)) by lia.
    rewrite (header_at_mod g k) by lia. f_equal.
    replace (k + 2 ^ 64) with (k + 1 * 2 ^ 64) by lia. apply Z.mod_add. lia.
  - intros Hall fuel.
    destruct (mine_loop sha256 target fuel g 0) as [r|] eqn:E; [|reflexivity].
    rewrite <- (header_at_0 g Hn Ht) in E at 1.
    change 0 with (wrap64 0) in E at 2.
    apply mine_loop_inv in E; [|lia].
    destruct E as (j & Hj & _ & Ha & _).
    unfold attempt in Ha. rewrite (header_at_mod g j) in Ha by lia.
    pose proof (Hall (j mod 2 ^ 64) (Z.mod_pos_bound j (2 ^ 64) ltac:(lia))) as Hf.
    unfold attempt in Hf. congruence.
Qed.

Lemma mine_loop_never_stops_witness :
  mine_loop worst_sha256 main_target 1000 main_genesis 0 = None.
Proof.
  apply (mine_loop_never_stops worst_sha256 main_target main_genesis).
  - reflexivity.
  - apply is_u32_dec_true. vm_compute. reflexivity.
  - intros k _.
    change (attempt worst_sha256 main_target main_genesis k)
      with (le256 (SetHex (hex_of_bytes (repeat 255 32))) main_target).
    vm_compute. reflexivity.
Defined.

(** ** [SetHex] reads a hexadecimal number *)

Lemma lor_at_value (b : Z) : forall (q : nat) (r : Z) (D : uint256) (a : Z),
  0 <= b < 256 -> 0 <= r < 4 ->
  (q < length D)%nat -> Forall is_u32 D ->
  value256 D = a * 256 ^ (4 * Z.of_nat q + r + 1) ->
  value256 (lor_at D q (Z.shiftl b (r * 8)))
    = value256 D + b * 256 ^ (4 * Z.of_nat q + r) /\
  Forall is_u32 (lor_at D q (Z.shiftl b (r * 8))).
Proof.
  intros q r D a Hb Hr. revert D a.
  induction q as [|q IH]; intros [|w rest] a Hq HD Hv; try (simpl in Hq; lia).
  - inversion HD as [|? ? Hw Hrest]; subst. unfold is_u32 in Hw.
    cbn [lor_at value256] in *. change (4 * Z.of_nat 0) with 0 in *.
    rewrite Z.add_0_l in *.
    pose proof (value256_range rest Hrest) as [Hv0 _].
    rewrite Z.shiftl_mul_pow2 by lia.
    assert (Hdiv : exists x, w = x * 2 ^ (8 * r + 8) /\ 0 <= x /\
                             x * 2 ^ (8 * r + 8) + 2 ^ (8 * r + 8) <= 2 ^ 32).
    { assert (r = 0 \/ r = 1 \/ r = 2 \/ r = 3) as [-> | [-> | [-> | ->]]] by lia;
        cbn [Z.add Z.mul Pos.add Pos.mul Pos.succ] in *.
      - exists (w / 2 ^ 8). change (256 ^ 1) with (2 ^ 8) in Hv.
        change (8 * 0 + 8) with 8. Z.div_mod_to_equations. lia.
      - exists (w / 2 ^ 16). change (256 ^ 2) with (2 ^ 16) in Hv.
        change (8 * 1 + 8) with 16. Z.div_mod_to_equations. lia.
      - exists (w / 2 ^ 24). change (256 ^ 3) with (2 ^ 24) in Hv.
        change (8 * 2 + 8) with 24. Z.div_mod_to_equations. lia.
      - exists (w / 2 ^ 32). change (256 ^ 4) with (2 ^ 32) in Hv.
        change (8 * 3 + 8) with 32. Z.div_mod_to_equations. lia. }
    destruct Hdiv as (x & -> & Hx & Hxb).
    assert (Hy : 0 <= b * 2 ^ (r * 8) < 2 ^ (8 * r + 8)).
    { replace (8 * r + 8) with (r * 8 + 8) by lia.
      rewrite Z.pow_add_r by lia. change (2 ^ 8) with 256.
      assert (0 < 2 ^ (r * 8)) by (apply Z.pow_pos_nonneg; lia). nia. }
    rewrite lor_disjoint by lia.
    assert (E256 : 256 ^ r = 2 ^ (r * 8)).
    { change 256 with (2 ^ 8). rewrite <- Z.pow_mul_r by lia. f_equal. lia. }
    unfold wrap32. rewrite Z.mod_small by lia.
    split; [rewrite E256; lia|].
    constructor; [unfold is_u32; lia | assumption].
  - inversion HD as [|? ? Hw Hrest]; subst. unfold is_u32 in Hw.
    cbn [lor_at value256 length] in *.
    rewrite Nat2Z.inj_succ in *.
    replace (4 * Z.succ (Z.of_nat q) + r + 1) with (4 + (4 * Z.of_nat q + r + 1)) in Hv by lia.
    replace (4 * Z.succ (Z.of_nat q) + r) with (4 + (4 * Z.of_nat q + r)) by lia.
    rewrite (Z.pow_add_r 256 4 (4 * Z.of_nat q + r + 1)) in Hv by lia.
    rewrite (Z.pow_add_r 256 4 (4 * Z.of_nat q + r)) by lia.
    change (256 ^ 4) with (2 ^ 32) in *.
    set (P1 := 256 ^ (4 * Z.of_nat q + r + 1)) in *.
    set (P0 := 256 ^ (4 * Z.of_nat q + r)) in *.
    assert (Hw0 : w = 0).
    { assert (w = 2 ^ 32 * (a * P1 - value256 rest)) by lia.
      assert (a * P1 - value256 rest = 0 \/ a * P1 - value256 rest <> 0) as [Z0|NZ] by lia;
        [lia|]. nia. }
    subst w.
    assert (Hvr : value256 rest = a * P1) by lia.
    destruct (IH rest a ltac:(lia) Hrest Hvr) as [IHv IHu].
    fold P0 in IHv. rewrite IHv. split; [lia|].
    constructor; [unfold is_u32; lia | assumption].
Qed.

Lemma SetHex_fold hex n : forall i D acc,
  Z.of_nat (length hex) = i + 2 * Z.of_nat n -> 0 <= i -> (n <= 32)%nat ->
  wf256 D -> value256 D = acc * 256 ^ Z.of_nat n ->
  value256 (fold_left (SetHex_step hex) (upfrom i 2 n) D) =
  fold_left (fun a b => 256 * a + b)
    (map (fun i => to_byte (strtol16 (substr hex (Z.to_nat i) 2))) (upfrom i 2 n)) acc.
Proof.
  induction n as [|n IH]; intros i D acc Hlen Hi Hn [HL HD] Hv.
  - cbn [upfrom fold_left map]. rewrite Hv. change (256 ^ Z.of_nat 0) with 1. lia.
  - cbn [upfrom fold_left map].
    set (b := to_byte (strtol16 (substr hex (Z.to_nat i) 2))).
    assert (Hb : 0 <= b < 256) by (apply Z.mod_pos_bound; lia).
    assert (Hp : to_int (wrap64 (Z.of_nat (length hex) - i - 2) / 2) = Z.of_nat n).
    { rewrite Hlen. replace (i + 2 * Z.of_nat (S n) - i - 2) with (Z.of_nat n * 2) by lia.
      unfold wrap64. rewrite Z.mod_small by lia. rewrite Z.div_mul by lia.
      unfold to_int. rewrite Z.mod_small by lia.
      destruct (Z.ltb_spec (Z.of_nat n) (2 ^ 31)); lia. }
    assert (Hstep : SetHex_step hex D i =
                    lor_at D (Z.to_nat (Z.of_nat n / 4))
                           (Z.shiftl b (Z.of_nat n mod 4 * 8))).
    { unfold SetHex_step. rewrite Hp.
      rewrite Z.quot_div_nonneg, Z.rem_mod_nonneg by lia.
      fold b. destruct (Z.ltb_spec (Z.of_nat n mod 4) 0) as [Hneg|]; [|reflexivity].
      pose proof (Z.mod_pos_bound (Z.of_nat n) 4 ltac:(lia)). lia. }
    rewrite Hstep.
    pose proof (Z.div_mod (Z.of_nat n) 4 ltac:(lia)) as Edm.
    pose proof (Z.mod_pos_bound (Z.of_nat n) 4 ltac:(lia)) as Hr.
    assert (Hq0 : 0 <= Z.of_nat n / 4) by (apply Z.div_pos; lia).
    destruct (lor_at_value b (Z.to_nat (Z.of_nat n / 4)) (Z.of_nat n mod 4) D acc)
      as [Hval Hu]; try assumption.
    + rewrite HL. apply Nat2Z.inj_lt. rewrite Z2Nat.id by lia.
      apply Z.div_lt_upper_bound; lia.
    + rewrite Z2Nat.id by lia. rewrite Hv. f_equal. f_equal. lia.
    + rewrite Z2Nat.id in Hval by lia.
      replace (4 * (Z.of_nat n / 4) + Z.of_nat n mod 4) with (Z.of_nat n) in Hval by lia.
      apply IH; try lia.
      * split; [rewrite lor_at_length; exact HL | exact Hu].
      * rewrite Hval, Hv. rewrite Nat2Z.inj_succ, Z.pow_succ_r by lia. lia.
Qed.

(** X17. A string of an even number of characters, at most 64, is read by
    [SetHex] as a number written most significant byte first, right-aligned:
    its value is the big-endian value of the bytes its character pairs
    parse to.  (In particular a shorter string stands for the same number
    as the string padded on the left.) *)
Theorem SetHex_value (hex : cstring) :
  Nat.even (length hex) = true -> (length hex <= 64)%nat ->
  value256 (SetHex hex) = be_value (bytes_of_hex hex).
Proof.
  intros He Hl. apply Nat.even_spec in He. destruct He as [k Hk].
  unfold SetHex, bytes_of_hex, be_value.
  destruct (Nat.ltb_spec 64 (length hex)) as [H|_]; [lia|].
  rewrite Hk at 1 2. rewrite Nat.div2_succ_double, Nat.div2_double.
  apply SetHex_fold; try lia.
  - apply zero256_wf.
  - reflexivity.
Qed.

Lemma SetHex_value_witness :
  value256 (SetHex (str "1d00ffff")) = be_value (bytes_of_hex (str "1d00ffff")).
Proof.
  apply (SetHex_value (str "1d00ffff")); [reflexivity | vm_compute; lia].
Defined.

(** ** A turn of [MiningLoop] *)

(** X18. In a turn of [MiningLoop] a block is submitted and [blocks_found]
    goes up by one exactly when [MineBlock] has found a nonce, and the block
    submitted then is the template with that nonce, whose digest is at most
    the decoded target of the template's bits; every turn takes 1000 nonces
    from the shared counter; and [hash_rate] is left as it was when the
    clock has not passed [start_time]. *)
Theorem MiningLoop_turn_counts_valid_blocks (CScript double : Type)
    (SetCompact : Z -> Z) (GetHash : CBlock -> Z) (rate : Z -> Z -> double)
    (fuel : nat) (now later : Z) (m m' : Miner CScript double)
    (submitted : option CBlock) :
  0 <= current_nonce_ m < 2 ^ 32 ->
  MiningLoop_turn SetCompact GetHash rate fuel now later m = Some (submitted, m') ->
  blocks_found _ (stats_ m') =
    match submitted with
    | Some _ => (blocks_found _ (stats_ m) + 1) mod 2 ^ 64
    | None => blocks_found _ (stats_ m)
    end /\
  (forall block, submitted = Some block ->
     GetHash block <= SetCompact 0x207fffff /\
     current_nonce_ m <= blk_nNonce block /\
     block = with_nonce (CreateBlockTemplate now) (blk_nNonce block)) /\
  current_nonce_ m' = (current_nonce_ m + 1000) mod 2 ^ 32 /\
  (later <= start_time _ (stats_ m) -> hash_rate _ (stats_ m') = hash_rate _ (stats_ m)).
Proof.
  intros Hc H. unfold MiningLoop_turn in H.
  destruct (MineBlock SetCompact GetHash fuel (CreateBlockTemplate now) m)
    as [[[res tested] m1]|] eqn:E; [|discriminate].
  unfold MineBlock, fetch_add in E.
  pose proof (MineBlock_loop_spec GetHash fuel _ _ _ _ _ _ _ _ (proj1 Hc) E)
    as (k & Hm1 & _ & Hres).
  match type of Hm1 with _ = Nat.iter k _ ?x =>
    destruct (iter_add_hash_frame k x) as (_ & _ & _ & F4 & F5 & F6 & F7 & _) end.
  rewrite <- Hm1 in F4, F5, F6, F7.
  cbn [current_nonce_ stats_] in F4, F5, F6, F7.
  destruct res as [n|].
  - injection H as <- <-. destruct Hres as (-> & _ & Hhit).
    unfold UpdateStats, count_block. cbn [stats_ start_time hashes_computed blocks_found
      hash_rate is_mining config_ mining_threads_ stop_mining_ current_nonce_].
    rewrite F7.
    destruct (Z.ltb_spec 0 (later - start_time _ (stats_ m))) as [Hl|Hl];
      cbn [stats_ blocks_found current_nonce_ hash_rate]; rewrite ?F4, ?F5, ?F6.
    + split; [reflexivity|]. split; [|split; [reflexivity | intros; lia]].
      intros block Hb. injection Hb as <-. cbn [with_nonce blk_nNonce].
      split; [exact Hhit|]. split; [lia | reflexivity].
    + split; [reflexivity|]. split; [|split; [reflexivity | intros; reflexivity]].
      intros block Hb. injection Hb as <-. cbn [with_nonce blk_nNonce].
      split; [exact Hhit|]. split; [lia | reflexivity].
  - injection H as <- <-.
    unfold UpdateStats. rewrite F7.
    destruct (Z.ltb_spec 0 (later - start_time _ (stats_ m))) as [Hl|Hl];
      cbn [stats_ blocks_found current_nonce_ hash_rate]; rewrite ?F4, ?F5, ?F6.
    + split; [reflexivity|]. split; [intros block Hb; discriminate|].
      split; [reflexivity | intros; lia].
    + split; [reflexivity|]. split; [intros block Hb; discriminate|].
      split; [reflexivity | intros; reflexivity].
Qed.

Lemma MiningLoop_turn_counts_valid_blocks_witness :
  1 = (0 + 1) mod 2 ^ 64 /\ 1000 = (0 + 1000) mod 2 ^ 32.
Proof.
  destruct (MiningLoop_turn_counts_valid_blocks Script Z DecodeCompact
              (fun _ => 2 ^ 240) (fun h e => h / e) 1 100 200 (new_miner 100)
              (mkMiner default_config (mkStats 0 1 0 100 false) [] false 1000)
              (Some (with_nonce (CreateBlockTemplate 100) 0)))
    as (Hb & _ & Hn & _).
  - vm_compute. split; [discriminate | reflexivity].
  - vm_compute. reflexivity.
  - split; [exact Hb | exact Hn].
Defined.
